(** * Particle field: a shallow embedding of the canvas animation scripts

    The repository ships three variants of one script:
    - [particles.js]          particles and connecting lines only;
    - [unnamed/part_001]      adds pointer repulsion and click waves;
    - [unnamed/part_000]      adds the hidden "easter egg" particle and popup.

    The embedding follows [part_000], the superset.  Functions of the two
    smaller variants that differ from it and that the properties below
    refer to are embedded in the modules [Plain] ([particles.js]) and
    [WavesOnly] ([part_001]); their other functions are those of [part_000]
    with the egg, or the egg and the waves, switched off.

    Numbers.  A JavaScript number is modelled by [JS.num]: an exact real,
    one of the two infinities, or NaN.  Arithmetic on finite values is exact
    (rounding, overflow and the sign of zero are not modelled); the special
    values follow IEEE 754 as JavaScript exposes it: [0/0], [Inf - Inf] and
    [0 * Inf] are NaN, every comparison with NaN is false, [Math.max] and
    [Math.min] return NaN as soon as one argument is NaN. *)

From Stdlib Require Import Reals Lra Lia ZArith List Bool String.
Import ListNotations.


(* ================================================================= *)
(** ** JavaScript numbers *)

Module JS.

Inductive num : Type :=
| NaN
| NInf
| Fin (r : R)
| PInf.

Definition Rltb (a b : R) : bool := if Rlt_dec a b then true else false.
Definition Rleb (a b : R) : bool := if Rle_dec a b then true else false.
Definition Reqb (a b : R) : bool := if Req_dec_T a b then true else false.

(** Unary minus. *)
Definition neg (a : num) : num :=
  match a with
  | NaN => NaN
  | NInf => PInf
  | Fin r => Fin (- r)
  | PInf => NInf
  end.

(** [a + b]. *)
Definition add (a b : num) : num :=
  match a, b with
  | NaN, _ | _, NaN => NaN
  | PInf, NInf | NInf, PInf => NaN
  | PInf, _ | _, PInf => PInf
  | NInf, _ | _, NInf => NInf
  | Fin r, Fin s => Fin (r + s)
  end.

(** [a - b]. *)
Definition sub (a b : num) : num := add a (neg b).

(** The infinity whose sign is that of [r], NaN for [r = 0]. *)
Definition inf_signed (r : R) (pos : num) : num :=
  if Rltb 0 r then pos else if Rltb r 0 then neg pos else NaN.

(** [a * b]. *)
Definition mul (a b : num) : num :=
  match a, b with
  | NaN, _ | _, NaN => NaN
  | Fin r, Fin s => Fin (r * s)
  | PInf, PInf | NInf, NInf => PInf
  | PInf, NInf | NInf, PInf => NInf
  | PInf, Fin s | Fin s, PInf => inf_signed s PInf
  | NInf, Fin s | Fin s, NInf => inf_signed s NInf
  end.

(** [a / b].  A zero divisor is the positive zero, as every zero divisor
    of the scripts is (a square root, a literal, a DOM length). *)
Definition div (a b : num) : num :=
  match a, b with
  | NaN, _ | _, NaN => NaN
  | Fin r, Fin s =>
      if Reqb s 0 then inf_signed r PInf else Fin (r / s)
  | Fin _, (PInf | NInf) => Fin 0
  | (PInf | NInf), (PInf | NInf) => NaN
  | PInf, Fin s => if Rltb s 0 then NInf else PInf
  | NInf, Fin s => if Rltb s 0 then PInf else NInf
  end.

(** [Math.sqrt]. *)
Definition sqrt (a : num) : num :=
  match a with
  | NaN | NInf => NaN
  | PInf => PInf
  | Fin r => if Rltb r 0 then NaN else Fin (R_sqrt.sqrt r)
  end.

(** [Math.floor]. *)
Definition floor (a : num) : num :=
  match a with
  | Fin r => Fin (IZR (Zfloor r))
  | _ => a
  end.

(** [a < b]. *)
Definition lt (a b : num) : bool :=
  match a, b with
  | NaN, _ | _, NaN => false
  | _, NInf => false
  | PInf, _ => false
  | NInf, _ => true
  | Fin _, PInf => true
  | Fin r, Fin s => Rltb r s
  end.

(** [a <= b]. *)
Definition le (a b : num) : bool :=
  match a, b with
  | NaN, _ | _, NaN => false
  | NInf, _ => true
  | _, PInf => true
  | _, NInf => false
  | PInf, _ => false
  | Fin r, Fin s => Rleb r s
  end.

(** [a > b] and [a >= b]. *)
Definition gt (a b : num) : bool := lt b a.
Definition ge (a b : num) : bool := le b a.

(** [a === b] on numbers. *)
Definition eqb (a b : num) : bool :=
  match a, b with
  | NInf, NInf | PInf, PInf => true
  | Fin r, Fin s => Reqb r s
  | _, _ => false
  end.

Definition isNaN (a : num) : bool :=
  match a with NaN => true | _ => false end.

(** [Math.max(a, b)] and [Math.min(a, b)]. *)
Definition max (a b : num) : num :=
  if isNaN a || isNaN b then NaN else if lt a b then b else a.

Definition min (a b : num) : num :=
  if isNaN a || isNaN b then NaN else if lt b a then b else a.

End JS.

Import JS.

Declare Scope js_scope.
Delimit Scope js_scope with js.
Bind Scope js_scope with num.
Notation "a + b" := (JS.add a b) : js_scope.
Notation "a - b" := (JS.sub a b) : js_scope.
Notation "a * b" := (JS.mul a b) : js_scope.
Notation "a / b" := (JS.div a b) : js_scope.
Notation "- a" := (JS.neg a) : js_scope.
Notation "a <? b" := (JS.lt a b) (at level 70) : js_scope.
Notation "a <=? b" := (JS.le a b) (at level 70) : js_scope.
Notation "a >? b" := (JS.gt a b) (at level 70) : js_scope.
Notation "a >=? b" := (JS.ge a b) (at level 70) : js_scope.
Notation "a === b" := (JS.eqb a b) (at level 70) : js_scope.

Coercion Fin : R >-> num.

Local Open Scope R_scope.
Local Open Scope js_scope.

(* ================================================================= *)
(** ** Data model *)

(** [config]: the configuration object of [part_000]; the other two
    variants have a prefix of its fields. *)

Inductive Theme : Type := light | dark.

(** A colour string such as ['rgba(44, 62, 80, 0.2)'], kept in parsed
    form: [rgb] is what [match(/\d+/g).slice(0, 3).join(', ')] returns and
    [alpha] the fourth token of [match(/[\d\.]+/g)], [None] when the string
    has no fourth token. *)
Record Color : Type := mkColor {
  rgb : string;
  alpha : option R
}.

Record Palette : Type := mkPalette {
  particleColor : Color;
  lineColor : Color;
  waveColor : Color;
  easterEggColor : Color
}.

Record Config : Type := mkConfig {
  particleCount : nat;
  maxDistance : R;
  particleSpeed : R;
  particleRadius : R;
  lineWidth : R;
  mouseRadius : R;
  mouseRepelRadius : R;
  mouseRepelStrength : R;
  waveOnClick : bool;
  waveMaxRadius : R;
  waveDurationFrames : Z;
  waveInitialLineWidth : R;
  waveFadeOut : bool;
  enableEasterEgg : bool;
  easterEggAlwaysFirst : bool;
  themeColors : Theme -> Palette
}.

Module Particle.
Record t : Type := mk {
  radius : num;
  x : num;
  y : num;
  vx : num;
  vy : num;
  isEasterEgg : bool
}.
Definition set_v (p : t) (vx' vy' : num) : t :=
  mk (radius p) (x p) (y p) vx' vy' (isEasterEgg p).
Definition set_x (p : t) (x' vx' : num) : t :=
  mk (radius p) x' (y p) vx' (vy p) (isEasterEgg p).
Definition set_y (p : t) (y' vy' : num) : t :=
  mk (radius p) (x p) y' (vx p) vy' (isEasterEgg p).
Definition set_pos (p : t) (x' y' : num) : t :=
  mk (radius p) x' y' (vx p) (vy p) (isEasterEgg p).
Definition set_isEasterEgg (p : t) (b : bool) : t :=
  mk (radius p) (x p) (y p) (vx p) (vy p) b.
End Particle.

(** The objects pushed on [activeWaves].  [life] and [initialLife] count
    animation frames and are kept as integers. *)
Module Wave.
Record t : Type := mk {
  x : num;
  y : num;
  currentRadius : num;
  maxRadius : num;
  life : Z;
  initialLife : Z;
  initialLineWidth : num
}.
End Wave.

(** [mouse = { x: null, y: null }]: [None] is [null]. *)
Module Mouse.
Record t : Type := mk {
  x : option num;
  y : option num
}.
End Mouse.

(** What a mouse event and [canvas.getBoundingClientRect()] deliver. *)
Record MouseEvent : Type := mkMouseEvent {
  clientX : R;
  clientY : R;
  rect_left : R;
  rect_top : R;
  rect_width : R;
  rect_height : R
}.

(** The calls made on the 2D context, in order. *)
Inductive DrawCmd : Type :=
| clearRect (w h : num)
| fillArc (cx cy r : num) (fillStyle : Color)
| strokeArc (cx cy r : num) (strokeRGB : string) (strokeAlpha : num) (width : num)
| strokeLine (x1 y1 x2 y2 : num) (strokeRGB : string) (strokeAlpha : num) (width : num).

(** The mutable variables of the script, followed by the part of the host
    they act on.  [popupCalls] counts the calls of [showEasterEggPopup] (the
    egg-found signal); nothing reads it. *)
Record State : Type := mkState {
  easterEggParticleFound : bool;
  popupTimeoutId : option nat;
  particles : list Particle.t;
  activeWaves : list Wave.t;
  animationFrameId : option nat;
  currentTheme : Theme;
  mouse : Mouse.t;
  isMouseDown : bool;
  canvas_width : R;
  canvas_height : R;
  popupVisible : bool;
  pendingTimeouts : list nat;
  nextHandle : nat;
  randomCalls : nat;
  popupCalls : nat;
  drawn : list DrawCmd
}.

Definition set_easterEggParticleFound (b : bool) (s : State) : State :=
  mkState b (popupTimeoutId s) (particles s) (activeWaves s)
    (animationFrameId s) (currentTheme s) (mouse s) (isMouseDown s)
    (canvas_width s) (canvas_height s) (popupVisible s) (pendingTimeouts s)
    (nextHandle s) (randomCalls s) (popupCalls s) (drawn s).

Definition set_particles (ps : list Particle.t) (s : State) : State :=
  mkState (easterEggParticleFound s) (popupTimeoutId s) ps (activeWaves s)
    (animationFrameId s) (currentTheme s) (mouse s) (isMouseDown s)
    (canvas_width s) (canvas_height s) (popupVisible s) (pendingTimeouts s)
    (nextHandle s) (randomCalls s) (popupCalls s) (drawn s).

Definition set_activeWaves (ws : list Wave.t) (s : State) : State :=
  mkState (easterEggParticleFound s) (popupTimeoutId s) (particles s) ws
    (animationFrameId s) (currentTheme s) (mouse s) (isMouseDown s)
    (canvas_width s) (canvas_height s) (popupVisible s) (pendingTimeouts s)
    (nextHandle s) (randomCalls s) (popupCalls s) (drawn s).

Definition set_animationFrameId (a : option nat) (s : State) : State :=
  mkState (easterEggParticleFound s) (popupTimeoutId s) (particles s)
    (activeWaves s) a (currentTheme s) (mouse s) (isMouseDown s)
    (canvas_width s) (canvas_height s) (popupVisible s) (pendingTimeouts s)
    (nextHandle s) (randomCalls s) (popupCalls s) (drawn s).

Definition set_currentTheme (t : Theme) (s : State) : State :=
  mkState (easterEggParticleFound s) (popupTimeoutId s) (particles s)
    (activeWaves s) (animationFrameId s) t (mouse s) (isMouseDown s)
    (canvas_width s) (canvas_height s) (popupVisible s) (pendingTimeouts s)
    (nextHandle s) (randomCalls s) (popupCalls s) (drawn s).

Definition set_mouse (m : Mouse.t) (s : State) : State :=
  mkState (easterEggParticleFound s) (popupTimeoutId s) (particles s)
    (activeWaves s) (animationFrameId s) (currentTheme s) m (isMouseDown s)
    (canvas_width s) (canvas_height s) (popupVisible s) (pendingTimeouts s)
    (nextHandle s) (randomCalls s) (popupCalls s) (drawn s).

Definition set_isMouseDown (b : bool) (s : State) : State :=
  mkState (easterEggParticleFound s) (popupTimeoutId s) (particles s)
    (activeWaves s) (animationFrameId s) (currentTheme s) (mouse s) b
    (canvas_width s) (canvas_height s) (popupVisible s) (pendingTimeouts s)
    (nextHandle s) (randomCalls s) (popupCalls s) (drawn s).

Definition set_canvas (w h : R) (s : State) : State :=
  mkState (easterEggParticleFound s) (popupTimeoutId s) (particles s)
    (activeWaves s) (animationFrameId s) (currentTheme s) (mouse s)
    (isMouseDown s) w h (popupVisible s) (pendingTimeouts s)
    (nextHandle s) (randomCalls s) (popupCalls s) (drawn s).

(** The popup side: [popupTimeoutId], the [visible] class, the pending
    timeouts, the next handle and the call counter, set together. *)
Definition set_popup (tid : option nat) (vis : bool) (pend : list nat)
    (next calls : nat) (s : State) : State :=
  mkState (easterEggParticleFound s) tid (particles s)
    (activeWaves s) (animationFrameId s) (currentTheme s) (mouse s)
    (isMouseDown s) (canvas_width s) (canvas_height s) vis pend
    next (randomCalls s) calls (drawn s).

Definition set_nextHandle (n : nat) (s : State) : State :=
  mkState (easterEggParticleFound s) (popupTimeoutId s) (particles s)
    (activeWaves s) (animationFrameId s) (currentTheme s) (mouse s)
    (isMouseDown s) (canvas_width s) (canvas_height s) (popupVisible s)
    (pendingTimeouts s) n (randomCalls s) (popupCalls s) (drawn s).

Definition set_randomCalls (n : nat) (s : State) : State :=
  mkState (easterEggParticleFound s) (popupTimeoutId s) (particles s)
    (activeWaves s) (animationFrameId s) (currentTheme s) (mouse s)
    (isMouseDown s) (canvas_width s) (canvas_height s) (popupVisible s)
    (pendingTimeouts s) (nextHandle s) n (popupCalls s) (drawn s).

Definition set_drawn (d : list DrawCmd) (s : State) : State :=
  mkState (easterEggParticleFound s) (popupTimeoutId s) (particles s)
    (activeWaves s) (animationFrameId s) (currentTheme s) (mouse s)
    (isMouseDown s) (canvas_width s) (canvas_height s) (popupVisible s)
    (pendingTimeouts s) (nextHandle s) (randomCalls s) (popupCalls s) d.

(* ================================================================= *)
(** ** The script of [part_000] *)

Section Script.

(** [const config], the sequence of values [Math.random()] returns, and
    whether [document.getElementById('easter-egg-popup')] found an element. *)
Variable config : Config.
Variable random : nat -> R.
Variable popupElement : bool.

Definition getThemeColors (s : State) : Palette :=
  themeColors config (currentTheme s).

(** [getRandom(min, max)], at the [k]-th call of [Math.random]. *)
Definition getRandom (k : nat) (min max : num) : num :=
  Fin (random k) * (max - min) + min.

(** *** class Particle *)

(** [constructor()]: five calls of [Math.random], from the [k]-th on. *)
Definition newParticle (W H : R) (k : nat) : Particle.t :=
  let radius := getRandom k (particleRadius config * 0.5)
                            (particleRadius config * 1.5) in
  let x := getRandom (k + 1) radius (W - radius) in
  let y := getRandom (k + 2) radius (H - radius) in
  let vx := getRandom (k + 3) (- particleSpeed config) (particleSpeed config) in
  let vy := getRandom (k + 4) (- particleSpeed config) (particleSpeed config) in
  let vx := if vx === 0 then Fin 0.1 else vx in
  let vy := if vy === 0 then Fin 0.1 else vy in
  Particle.mk radius x y vx vy false.

(** [draw()]. *)
Definition draw (s : State) (p : Particle.t) : DrawCmd :=
  let colors := getThemeColors s in
  let fillColor :=
    if Particle.isEasterEgg p && enableEasterEgg config
    then easterEggColor colors
    else particleColor colors in
  fillArc (Particle.x p) (Particle.y p) (Particle.radius p) fillColor.

(** [update()], first block: the push away from a pressed pointer. *)
Definition repel (m : Mouse.t) (down : bool) (p : Particle.t) : Particle.t :=
  match down, Mouse.x m, Mouse.y m with
  | true, Some mx, Some my =>
      let dxMouse := Particle.x p - mx in
      let dyMouse := Particle.y p - my in
      let distanceMouse := JS.sqrt (dxMouse * dxMouse + dyMouse * dyMouse) in
      if distanceMouse <? mouseRepelRadius config then
        let forceDirectionX := dxMouse / distanceMouse in
        let forceDirectionY := dyMouse / distanceMouse in
        let forceMagnitude :=
          (Fin 1 - distanceMouse / mouseRepelRadius config)
          * mouseRepelStrength config in
        let vx := Particle.vx p + forceDirectionX * forceMagnitude in
        let vy := Particle.vy p + forceDirectionY * forceMagnitude in
        let maxSpeed := particleSpeed config * Fin 3 in
        Particle.set_v p (JS.max (- maxSpeed) (JS.min maxSpeed vx))
                         (JS.max (- maxSpeed) (JS.min maxSpeed vy))
      else p
  | _, _, _ => p
  end.

(** [update()], "Movement". *)
Definition move (p : Particle.t) : Particle.t :=
  Particle.set_pos p (Particle.x p + Particle.vx p)
                     (Particle.y p + Particle.vy p).

(** [update()], "Boundary check (bounce off edges)". *)
Definition bounceX (W : R) (p : Particle.t) : Particle.t :=
  if (Particle.x p + Particle.radius p >? W)
     || (Particle.x p - Particle.radius p <? Fin 0)
  then Particle.set_x p
         (JS.max (Particle.radius p)
                 (JS.min (W - Particle.radius p) (Particle.x p)))
         (- Particle.vx p)
  else p.

Definition bounceY (H : R) (p : Particle.t) : Particle.t :=
  if (Particle.y p + Particle.radius p >? H)
     || (Particle.y p - Particle.radius p <? Fin 0)
  then Particle.set_y p
         (JS.max (Particle.radius p)
                 (JS.min (H - Particle.radius p) (Particle.y p)))
         (- Particle.vy p)
  else p.

(** [update()]. *)
Definition update (W H : R) (m : Mouse.t) (down : bool) (p : Particle.t)
    : Particle.t :=
  bounceY H (bounceX W (move (repel m down p))).

(** *** The particle array *)

(** The loop [for (i = 0; i < config.particleCount; i++)
    particles.push(new Particle())]. *)
Fixpoint makeParticles (W H : R) (n k : nat) : list Particle.t :=
  match n with
  | O => []
  | S n' => newParticle W H k :: makeParticles W H n' (k + 5)
  end.

(** The array index a number denotes, if it denotes one. *)
Definition toIndex (a : num) : option nat :=
  match a with
  | Fin r =>
      if Rleb 0 r && Reqb (IZR (Zfloor r)) r
      then Some (Z.to_nat (Zfloor r)) else None
  | _ => None
  end.

(** [particles[eggIndex].isEasterEgg = true]; [None] is the [TypeError] of
    an assignment through [undefined]. *)
Fixpoint markEgg (ps : list Particle.t) (i : nat) : option (list Particle.t) :=
  match ps, i with
  | [], _ => None
  | p :: rest, O => Some (Particle.set_isEasterEgg p true :: rest)
  | p :: rest, S i' =>
      match markEgg rest i' with
      | Some rest' => Some (p :: rest')
      | None => None
      end
  end.

(** [requestAnimationFrame] and [setTimeout] hand out fresh handles,
    starting from 1. *)
Definition freshHandle (s : State) : nat := S (nextHandle s).

(** Truthiness of a handle variable: [null], [undefined] and [0] are
    falsy. *)
Definition truthy (h : option nat) : bool :=
  match h with
  | Some (S _) => true
  | _ => false
  end.

(** [parseFloat(color.match(/[\d\.]+/g)[3] || 1)]. *)
Definition alphaOr1 (c : Color) : num :=
  match alpha c with
  | Some a => Fin a
  | None => Fin 1
  end.

(** *** connectParticles *)

(** The body of the inner loop, for the pair [particles[i]], [particles[j]]. *)
Definition pairDistance (p q : Particle.t) : num :=
  let dx := Particle.x p - Particle.x q in
  let dy := Particle.y p - Particle.y q in
  JS.sqrt (dx * dx + dy * dy).

Definition pairOpacity (colors : Palette) (p q : Particle.t) : num :=
  let opacity := Fin 1 - pairDistance p q / maxDistance config in
  opacity * alphaOr1 (lineColor colors).

Definition pairLine (colors : Palette) (p q : Particle.t) : list DrawCmd :=
  if pairDistance p q <? maxDistance config then
    [strokeLine (Particle.x p) (Particle.y p) (Particle.x q) (Particle.y q)
       (rgb (lineColor colors))
       (JS.max (Fin 0) (pairOpacity colors p q))
       (lineWidth config)]
  else [].

(** "Connect particles to mouse". *)
Definition mouseLine (colors : Palette) (m : Mouse.t) (p : Particle.t)
    : list DrawCmd :=
  match Mouse.x m, Mouse.y m with
  | Some mx, Some my =>
      let dxMouse := Particle.x p - mx in
      let dyMouse := Particle.y p - my in
      let distanceMouse := JS.sqrt (dxMouse * dxMouse + dyMouse * dyMouse) in
      if distanceMouse <? mouseRadius config then
        let opacity := Fin 1 - distanceMouse / mouseRadius config in
        [strokeLine (Particle.x p) (Particle.y p) mx my
           (rgb (lineColor colors))
           (JS.max (Fin 0) (opacity * Fin 0.5))
           (lineWidth config)]
      else []
  | _, _ => []
  end.

(** The outer loop: [ps] is [particles] from index [i] on. *)
Fixpoint connectFrom (colors : Palette) (m : Mouse.t) (ps : list Particle.t)
    : list DrawCmd :=
  match ps with
  | [] => []
  | p :: rest =>
      flat_map (pairLine colors p) rest
      ++ mouseLine colors m p
      ++ connectFrom colors m rest
  end.

Definition connectParticles (s : State) : list DrawCmd :=
  connectFrom (getThemeColors s) (mouse s) (particles s).

(** *** animate: the wave filter *)

(** "Update wave": the two assignments that open the filter callback. *)
Definition waveUpdate (wave : Wave.t) : Wave.t :=
  Wave.mk (Wave.x wave) (Wave.y wave)
    (Wave.currentRadius wave
     + Wave.maxRadius wave / Fin (IZR (Wave.initialLife wave)))
    (Wave.maxRadius wave)
    (Wave.life wave - 1)%Z
    (Wave.initialLife wave)
    (Wave.initialLineWidth wave).

Definition waveProgress (wave : Wave.t) : num :=
  Fin 1 - Fin (IZR (Wave.life wave)) / Fin (IZR (Wave.initialLife wave)).

Definition waveOpacity (waveBaseAlpha : num) (wave : Wave.t) : num :=
  if waveFadeOut config
  then (Fin 1 - waveProgress wave) * waveBaseAlpha
  else waveBaseAlpha.

Definition waveLineWidth (wave : Wave.t) : num :=
  Wave.initialLineWidth wave * (Fin 1 - waveProgress wave).

(** The filter callback: the wave as it leaves the callback, what the
    callback returns, and what it draws. *)
Definition waveCallback (waveBaseRGB : string) (waveBaseAlpha : num)
    (wave : Wave.t) : Wave.t * bool * list DrawCmd :=
  let wave := waveUpdate wave in
  if (0 <? Wave.life wave)%Z
     && (Wave.currentRadius wave <? Wave.maxRadius wave * Fin 1.1)
  then
    let opacity := waveOpacity waveBaseAlpha wave in
    let lineWidth := waveLineWidth wave in
    if (lineWidth <=? Fin 0) || (opacity <=? Fin 0)
    then (wave, false, [])
    else (wave, true,
          [strokeArc (Wave.x wave) (Wave.y wave) (Wave.currentRadius wave)
             waveBaseRGB opacity lineWidth])
  else (wave, false, []).

(** [activeWaves.filter(callback)]. *)
Fixpoint filterWaves (waveBaseRGB : string) (waveBaseAlpha : num)
    (ws : list Wave.t) : list Wave.t * list DrawCmd :=
  match ws with
  | [] => ([], [])
  | w :: rest =>
      let '(w', keep, d) := waveCallback waveBaseRGB waveBaseAlpha w in
      let '(ws', ds) := filterWaves waveBaseRGB waveBaseAlpha rest in
      (if keep then w' :: ws' else ws', d ++ ds)
  end.

(** *** animate *)

Definition animate (s : State) : State :=
  let d0 := [clearRect (canvas_width s) (canvas_height s)] in
  let '(waves, d1) :=
    if waveOnClick config then
      let themeWaveColor := waveColor (getThemeColors s) in
      filterWaves (rgb themeWaveColor) (alphaOr1 themeWaveColor) (activeWaves s)
    else (activeWaves s, []) in
  let s := set_activeWaves waves s in
  let ps := map (update (canvas_width s) (canvas_height s)
                        (mouse s) (isMouseDown s)) (particles s) in
  let s := set_particles ps s in
  let d2 := map (draw s) ps in
  let d3 := connectParticles s in
  let s := set_drawn (d0 ++ d1 ++ d2 ++ d3) s in
  set_animationFrameId (Some (freshHandle s)) (set_nextHandle (freshHandle s) s).

Definition startAnimation (s : State) : State :=
  if negb (truthy (animationFrameId s)) then animate s else s.

Definition stopAnimation (s : State) : State :=
  if truthy (animationFrameId s) then set_animationFrameId None s else s.

(** *** init *)

Definition init (innerWidth innerHeight : R) (s : State) : option State :=
  let s := set_canvas innerWidth innerHeight s in
  let s := set_particles [] s in
  let s := set_easterEggParticleFound false s in
  let ps := makeParticles innerWidth innerHeight
              (particleCount config) (randomCalls s) in
  let s := set_randomCalls (randomCalls s + 5 * particleCount config)
             (set_particles ps s) in
  let marked :=
    if enableEasterEgg config && (0 <? List.length (particles s))%nat then
      let len := Fin (INR (List.length (particles s))) in
      let '(eggIndex, s) :=
        if negb (easterEggAlwaysFirst config)
        then (JS.floor (Fin (random (randomCalls s)) * len),
              set_randomCalls (randomCalls s + 1) s)
        else (Fin 0, s) in
      let eggIndex := JS.max (Fin 0) (JS.min (len - Fin 1) eggIndex) in
      match toIndex eggIndex with
      | Some i =>
          match markEgg (particles s) i with
          | Some ps' => Some (set_particles ps' s)
          | None => None
          end
      | None => None
      end
    else Some s in
  match marked with
  | Some s => Some (startAnimation s)
  | None => None
  end.

Definition handleResize (innerWidth innerHeight : R) (s : State)
    : option State :=
  init innerWidth innerHeight (stopAnimation s).

(** *** The popup *)

Definition clearTimeout (h : option nat) (pend : list nat) : list nat :=
  match h with
  | Some id => remove Nat.eq_dec id pend
  | None => pend
  end.

Definition showEasterEggPopup (s : State) : State :=
  let calls := S (popupCalls s) in
  if negb popupElement
  then set_popup (popupTimeoutId s) (popupVisible s) (pendingTimeouts s)
         (nextHandle s) calls s
  else
    let pend :=
      if truthy (popupTimeoutId s)
      then clearTimeout (popupTimeoutId s) (pendingTimeouts s)
      else pendingTimeouts s in
    let id := freshHandle s in
    set_popup (Some id) true (pend ++ [id]) id calls s.

Definition hideEasterEggPopup (s : State) : State :=
  if negb popupElement then s
  else
    if truthy (popupTimeoutId s)
    then set_popup None false
           (clearTimeout (popupTimeoutId s) (pendingTimeouts s))
           (nextHandle s) (popupCalls s) s
    else set_popup (popupTimeoutId s) false (pendingTimeouts s)
           (nextHandle s) (popupCalls s) s.

(** *** Event listeners *)

Definition updateMousePosition (event : MouseEvent) (s : State) : State :=
  let scaleX := Fin (canvas_width s) / Fin (rect_width event) in
  let scaleY := Fin (canvas_height s) / Fin (rect_height event) in
  set_mouse
    (Mouse.mk (Some ((Fin (clientX event) - Fin (rect_left event)) * scaleX))
              (Some ((Fin (clientY event) - Fin (rect_top event)) * scaleY)))
    s.

Definition mousemove (event : MouseEvent) (s : State) : State :=
  updateMousePosition event s.

Definition mouseout (s : State) : State :=
  set_isMouseDown false (set_mouse (Mouse.mk None None) s).

Definition mouseup (s : State) : State :=
  set_isMouseDown false s.

(** [distanceClick < p.radius+20]. *)
Definition hitTest (mx my : num) (p : Particle.t) : bool :=
  let dxClick := mx - Particle.x p in
  let dyClick := my - Particle.y p in
  let distanceClick := JS.sqrt (dxClick * dxClick + dyClick * dyClick) in
  distanceClick <? Particle.radius p + Fin 20.

(** The loop of the mousedown listener over [particles], from [ps] on;
    the boolean is [clickedOnEgg]. *)
Fixpoint scanForEgg (mx my : num) (ps : list Particle.t) (s : State)
    : State * bool :=
  match ps with
  | [] => (s, false)
  | p :: rest =>
      if hitTest mx my p then
        if Particle.isEasterEgg p
        then (set_easterEggParticleFound true (showEasterEggPopup s), true)
        else scanForEgg mx my rest s
      else scanForEgg mx my rest s
  end.

(** The object literal pushed on [activeWaves]. *)
Definition newWave (mx my : num) : Wave.t :=
  Wave.mk mx my (Fin 0) (mouseRepelRadius config)
    (waveDurationFrames config) (waveDurationFrames config)
    (waveInitialLineWidth config).

Definition mousedown (event : MouseEvent) (s : State) : State :=
  let s := set_isMouseDown true s in
  let s := updateMousePosition event s in
  let '(s, clickedOnEgg) :=
    match enableEasterEgg config, Mouse.x (mouse s), Mouse.y (mouse s) with
    | true, Some mx, Some my => scanForEgg mx my (particles s) s
    | _, _, _ => (s, false)
    end in
  match waveOnClick config && negb clickedOnEgg,
        Mouse.x (mouse s), Mouse.y (mouse s) with
  | true, Some mx, Some my =>
      set_activeWaves (activeWaves s ++ [newWave mx my]) s
  | _, _, _ => s
  end.

(** The theme observer. *)
Definition themeChanged (newTheme : Theme) (s : State) : State :=
  set_currentTheme newTheme s.

(** *** The host *)

(** What the browser can deliver.  [Frame] is the callback of
    [requestAnimationFrame]; [Resized] is the debounced resize with the new
    inner size of the window; [TimeoutFires] is the popup's hide timer. *)
Inductive Event : Type :=
| Frame
| MouseMoved (event : MouseEvent)
| MouseLeft
| MousePressed (event : MouseEvent)
| MouseReleased
| Resized (innerWidth innerHeight : R)
| ThemeSwitched (newTheme : Theme)
| TimeoutFires (id : nat)
| CloseClicked.

(** One event; [None] when the listener throws. *)
Definition handle (e : Event) (s : State) : option State :=
  match e with
  | Frame =>
      if truthy (animationFrameId s) then Some (animate s) else Some s
  | MouseMoved event => Some (mousemove event s)
  | MouseLeft => Some (mouseout s)
  | MousePressed event => Some (mousedown event s)
  | MouseReleased => Some (mouseup s)
  | Resized w h => handleResize w h s
  | ThemeSwitched t => Some (themeChanged t s)
  | TimeoutFires id =>
      if existsb (Nat.eqb id) (pendingTimeouts s)
      then Some (hideEasterEggPopup
                   (set_popup (popupTimeoutId s) (popupVisible s)
                      (remove Nat.eq_dec id (pendingTimeouts s))
                      (nextHandle s) (popupCalls s) s))
      else Some s
  | CloseClicked => Some (hideEasterEggPopup s)
  end.

Fixpoint run (es : list Event) (s : State) : option State :=
  match es with
  | [] => Some s
  | e :: rest =>
      match handle e s with
      | Some s' => run rest s'
      | None => None
      end
  end.

End Script.

(* ================================================================= *)
(** ** The two smaller variants *)

(** [particles.js]: [update()] is movement and the boundary check only;
    the pointer is tracked in client coordinates and there is no button
    state. *)
Module Plain.
Definition update (W H : R) (p : Particle.t) : Particle.t :=
  bounceY H (bounceX W (move p)).
Definition mousemove (event : MouseEvent) (s : State) : State :=
  set_mouse (Mouse.mk (Some (Fin (clientX event))) (Some (Fin (clientY event))))
    s.
Definition mouseout (s : State) : State :=
  set_mouse (Mouse.mk None None) s.
End Plain.

(** [part_001]: the mousedown listener has no egg scan. *)
Module WavesOnly.
Definition mousedown (config : Config) (event : MouseEvent) (s : State)
    : State :=
  let s := set_isMouseDown true s in
  let s := updateMousePosition event s in
  match waveOnClick config, Mouse.x (mouse s), Mouse.y (mouse s) with
  | true, Some mx, Some my =>
      set_activeWaves (activeWaves s ++ [newWave config mx my]) s
  | _, _, _ => s
  end.
End WavesOnly.

(* ================================================================= *)
(** ** The configuration as shipped *)

Definition shippedColors (t : Theme) : Palette :=
  match t with
  | light =>
      mkPalette (mkColor "44, 62, 80" (Some 0.7%R))
                (mkColor "44, 62, 80" (Some 0.2%R))
                (mkColor "0, 86, 179" (Some 0.15%R))
                (mkColor "227, 100, 20" (Some 0.9%R))
  | dark =>
      mkPalette (mkColor "224, 224, 224" (Some 0.6%R))
                (mkColor "224, 224, 224" (Some 0.15%R))
                (mkColor "121, 184, 255" (Some 0.15%R))
                (mkColor "255, 165, 0" (Some 0.9%R))
  end.

(** [const config] of [part_000]. *)
Definition shipped : Config :=
  mkConfig 120 250 0.3 4 0.8 200 150 0.05 true 80 90 1 true
           true false shippedColors.

(* ================================================================= *)
(** ** Notions the properties are stated with *)

(** The particle lies inside the surface, a radius away from each edge. *)
Definition inBounds (W H : R) (p : Particle.t) : Prop :=
  (Particle.radius p <=? Particle.x p) = true
  /\ (Particle.x p <=? Fin W - Particle.radius p) = true
  /\ (Particle.radius p <=? Particle.y p) = true
  /\ (Particle.y p <=? Fin H - Particle.radius p) = true.

(** Neither velocity component is NaN. *)
Definition numericVelocity (p : Particle.t) : Prop :=
  JS.isNaN (Particle.vx p) = false /\ JS.isNaN (Particle.vy p) = false.

(** The pointer sits exactly on the particle's centre. *)
Definition onParticle (m : Mouse.t) (p : Particle.t) : Prop :=
  Mouse.x m = Some (Particle.x p) /\ Mouse.y m = Some (Particle.y p).

(** The pointer is absent: one of its coordinates is [null]. *)
Definition absent (m : Mouse.t) : Prop :=
  Mouse.x m = None \/ Mouse.y m = None.

(** A sequence of ticks of one particle, each with the pointer state
    [(mouse, isMouseDown)] of that tick. *)
Fixpoint updates (config : Config) (W H : R) (trace : list (Mouse.t * bool))
    (p : Particle.t) : Particle.t :=
  match trace with
  | [] => p
  | (m, down) :: rest => updates config W H rest (update config W H m down p)
  end.

(** Along the trace, the pressed pointer is never exactly on the particle. *)
Fixpoint avoids (config : Config) (W H : R) (trace : list (Mouse.t * bool))
    (p : Particle.t) : Prop :=
  match trace with
  | [] => True
  | (m, down) :: rest =>
      ~ (down = true /\ onParticle m p)
      /\ avoids config W H rest (update config W H m down p)
  end.

(** The lines between particles alone: [connectParticles] without its
    "Connect particles to mouse" block. *)
Fixpoint pairLines (config : Config) (colors : Palette)
    (ps : list Particle.t) : list DrawCmd :=
  match ps with
  | [] => []
  | p :: rest =>
      flat_map (pairLine config colors p) rest ++ pairLines config colors rest
  end.

(** The number of special particles. *)
Definition countSpecial (ps : list Particle.t) : nat :=
  List.length (filter Particle.isEasterEgg ps).

(** The position the mousedown listener works with. *)
Definition pressX (event : MouseEvent) (s : State) : num :=
  (Fin (clientX event) - Fin (rect_left event))
  * (Fin (canvas_width s) / Fin (rect_width event)).

Definition pressY (event : MouseEvent) (s : State) : num :=
  (Fin (clientY event) - Fin (rect_top event))
  * (Fin (canvas_height s) / Fin (rect_height event)).

(** One frame of the wave collection, and [n] frames. *)
Definition advanceWaves (config : Config) (waveBaseRGB : string)
    (waveBaseAlpha : num) (ws : list Wave.t) : list Wave.t :=
  fst (filterWaves config waveBaseRGB waveBaseAlpha ws).

Definition advanceWavesN (config : Config) (waveBaseRGB : string)
    (waveBaseAlpha : num) (n : nat) (ws : list Wave.t) : list Wave.t :=
  Nat.iter n (advanceWaves config waveBaseRGB waveBaseAlpha) ws.

(** What the filter callback returns for [wave]. *)
Definition waveKept (config : Config) (waveBaseAlpha : num) (wave : Wave.t)
    : bool :=
  snd (fst (waveCallback config EmptyString waveBaseAlpha wave)).

(** One wave followed through [n] frames: the object after the [n]-th
    callback, [None] once a callback has returned [false]. *)
Fixpoint waveAfter (config : Config) (waveBaseAlpha : num) (n : nat)
    (wave : Wave.t) : option Wave.t :=
  match n with
  | O => Some wave
  | S n' =>
      if waveKept config waveBaseAlpha wave
      then waveAfter config waveBaseAlpha n' (waveUpdate wave)
      else None
  end.

(** The removal condition in the words of the specification, on the wave
    as updated by this frame: [remainingLife <= 0], or
    [currentRadius >= maxRadius * 1.1], or [lineWidth <= 0], or
    [opacity <= 0]. *)
Definition removalCondition (config : Config) (waveBaseAlpha : num)
    (wave : Wave.t) : bool :=
  let wave := waveUpdate wave in
  (Wave.life wave <=? 0)%Z
  || (Wave.currentRadius wave >=? Wave.maxRadius wave * Fin 1.1)
  || (waveLineWidth wave <=? Fin 0)
  || (waveOpacity config waveBaseAlpha wave <=? Fin 0).

(** The wave pushed at [(mx, my)] as it stands after [k] callbacks: the
    closed form of [k] applications of [waveUpdate] to [newWave]. *)
Definition waveAt (config : Config) (mx my : num) (k : nat) : Wave.t :=
  Wave.mk mx my
    (Fin (INR k * (mouseRepelRadius config / IZR (waveDurationFrames config))))
    (Fin (mouseRepelRadius config))
    (waveDurationFrames config - Z.of_nat k)%Z
    (waveDurationFrames config)
    (Fin (waveInitialLineWidth config)).

(** A wave that survived a callback, as a list of zero or one waves. *)
Definition survivors (w : option Wave.t) : list Wave.t :=
  match w with
  | Some w' => [w']
  | None => []
  end.

(* ================================================================= *)
(** ** Concrete inputs *)

(** A particle of radius 4 at (100, 100), drifting slowly, and a pointer
    held exactly on its centre, on an 800 x 600 surface. *)
Definition centred : Particle.t :=
  Particle.mk (Fin 4) (Fin 100) (Fin 100) (Fin 0.1) (Fin 0.1) false.

Definition pointerOnCentre : Mouse.t :=
  Mouse.mk (Some (Fin 100)) (Some (Fin 100)).

(** The state before [init]: nothing on an 800 x 600 canvas. *)
Definition blank : State :=
  mkState false None [] [] None light (Mouse.mk None None) false
          800 600 false [] 0 0 0 [].

(** The special particle at (300, 200), and a plain particle ten pixels
    to its right that comes before it in the array. *)
Definition egg : Particle.t :=
  Particle.mk (Fin 4) (Fin 300) (Fin 200) (Fin 0.1) (Fin 0.1) true.

Definition neighbour : Particle.t :=
  Particle.mk (Fin 4) (Fin 310) (Fin 200) (Fin 0.1) (Fin 0.1) false.

Definition scene : State := set_particles [neighbour; egg] blank.

(** A mouse event at client position [(cx, cy)] on a canvas displayed at
    its own size in the corner of the window. *)
Definition pressAt (cx cy : R) : MouseEvent :=
  mkMouseEvent cx cy 0 0 800 600.

(** Two particles on one horizontal line, 250 pixels apart: the shipped
    [maxDistance]. *)
Definition leftEnd : Particle.t :=
  Particle.mk (Fin 4) (Fin 100) (Fin 100) (Fin 0.1) (Fin 0.1) false.

Definition rightEnd : Particle.t :=
  Particle.mk (Fin 4) (Fin 350) (Fin 100) (Fin 0.1) (Fin 0.1) false.

(** A particle 50 pixels from the origin of the canvas. *)
Definition nearOrigin : Particle.t :=
  Particle.mk (Fin 4) (Fin 30) (Fin 40) (Fin 0.1) (Fin 0.1) false.

(** The alpha of a colour as a real, 1 when the string has none. *)
Definition baseAlpha (c : Color) : R :=
  match alpha c with
  | Some a => a
  | None => 1%R
  end.

(* ================================================================= *)
(** ** Notions for the properties of the remaining code *)

(** The popup and its hide timer agree: either the popup is hidden, no
    timer is pending and [popupTimeoutId] is [null], or the popup element
    exists and is visible, and the one pending timer is [popupTimeoutId], a
    handle already handed out. *)
Definition popupConsistent (popupElement : bool) (s : State) : Prop :=
  match popupTimeoutId s with
  | None => pendingTimeouts s = [] /\ popupVisible s = false
  | Some id =>
      popupElement = true
      /\ pendingTimeouts s = [id] /\ popupVisible s = true
      /\ (1 <= id <= nextHandle s)%nat
  end.

(** The index [init] marks: 0 under [easterEggAlwaysFirst], else the floor
    of the random draw times the length, clamped into the array. *)
Definition eggIndex (config : Config) (random : nat -> R) (s : State) : nat :=
  if easterEggAlwaysFirst config then 0%nat
  else
    Z.to_nat
      (Z.max 0
         (Z.min (Z.of_nat (particleCount config) - 1)
            (Zfloor (random (randomCalls s + 5 * particleCount config)%nat
                     * INR (particleCount config))))).

(** The state [init] hands to [startAnimation]: the canvas resized, the
    found flag reset, the particles replaced by [ps], [draws] more calls of
    [Math.random] made, and the rest of [s] as it was. *)
Definition initialised (W H : R) (ps : list Particle.t) (draws : nat)
    (s : State) : State :=
  mkState false (popupTimeoutId s) ps (activeWaves s) (animationFrameId s)
    (currentTheme s) (mouse s) (isMouseDown s) W H (popupVisible s)
    (pendingTimeouts s) (nextHandle s) (randomCalls s + draws)
    (popupCalls s) (drawn s).

(** The one event that replaces the particles. *)
Definition isResize (e : Event) : bool :=
  match e with
  | Resized _ _ => true
  | _ => false
  end.

(** Both velocity components are finite and within three times the base
    speed: the cap of the force step. *)
Definition cappedVelocity (config : Config) (p : Particle.t) : Prop :=
  exists v w : R,
    Particle.vx p = Fin v /\ Particle.vy p = Fin w
    /\ (Rabs v <= particleSpeed config * 3)%R
    /\ (Rabs w <= particleSpeed config * 3)%R.

(** What the constructor promises of a new particle on a [W] x [H]
    canvas: a radius between half and one and a half times the configured
    one, a centre at least a radius away from every edge, and a velocity
    with no zero component, each within the base speed or the 0.1 that
    replaces a zero draw. *)
Definition asConstructed (config : Config) (W H : R) (p : Particle.t) : Prop :=
  exists r v w : R,
    Particle.radius p = Fin r /\ Particle.vx p = Fin v /\ Particle.vy p = Fin w
    /\ (particleRadius config * 0.5 <= r <= particleRadius config * 1.5)%R
    /\ inBounds W H p
    /\ v <> 0%R /\ w <> 0%R
    /\ (Rabs v <= particleSpeed config \/ v = 0.1%R)
    /\ (Rabs w <= particleSpeed config \/ w = 0.1%R)
    /\ Particle.isEasterEgg p = false.

(** The number is finite: neither NaN nor an infinity. *)
Definition finite (a : num) : bool :=
  match a with
  | Fin _ => true
  | _ => false
  end.

(** The shipped configuration with the egg switched off. *)
Definition eggless : Config :=
  mkConfig 120 250 0.3 4 0.8 200 150 0.05 true 80 90 1 true
           false false shippedColors.

(** The resize listener, [clearTimeout(resizeTimeout); resizeTimeout =
    setTimeout(handleResize, 250)], with the timers the host holds for it
    and the number of calls of [handleResize] they have made. *)
Module Debounce.
Record t : Type := mk {
  resizeTimeout : option nat;
  pending : list nat;
  next : nat;
  calls : nat
}.

(** The listener. *)
Definition resize (d : t) : t :=
  let pend := clearTimeout (resizeTimeout d) (pending d) in
  let id := S (next d) in
  mk (Some id) (pend ++ [id]) id (calls d).

(** The host runs the timer [id], if it is still pending. *)
Definition fire (id : nat) (d : t) : t :=
  if existsb (Nat.eqb id) (pending d)
  then mk (resizeTimeout d) (remove Nat.eq_dec id (pending d)) (next d)
          (S (calls d))
  else d.

Inductive Input : Type :=
| Resize
| Fire (id : nat).

Definition step (d : t) (i : Input) : t :=
  match i with
  | Resize => resize d
  | Fire id => fire id d
  end.

Definition run (inputs : list Input) (d : t) : t :=
  fold_left step inputs d.

Definition isResize (i : Input) : bool :=
  match i with
  | Resize => true
  | Fire _ => false
  end.

(** No timer is pending but the one [resizeTimeout] names. *)
Definition settled (d : t) : Prop :=
  pending d = [] \/ exists id, resizeTimeout d = Some id /\ pending d = [id].
End Debounce.

(* ================================================================= *)
(** ** Facts about numbers *)

Lemma Rltb_true (a b : R) : (a < b)%R -> JS.Rltb a b = true.
Proof. intros H. unfold JS.Rltb. destruct (Rlt_dec a b); [reflexivity | contradiction]. Qed.

Lemma Rltb_false (a b : R) : (b <= a)%R -> JS.Rltb a b = false.
Proof. intros H. unfold JS.Rltb. destruct (Rlt_dec a b); [lra | reflexivity]. Qed.

Lemma Rleb_true (a b : R) : (a <= b)%R -> JS.Rleb a b = true.
Proof. intros H. unfold JS.Rleb. destruct (Rle_dec a b); [reflexivity | contradiction]. Qed.

Lemma Rleb_false (a b : R) : (b < a)%R -> JS.Rleb a b = false.
Proof. intros H. unfold JS.Rleb. destruct (Rle_dec a b); [lra | reflexivity]. Qed.

Lemma Reqb_true (a b : R) : a = b -> JS.Reqb a b = true.
Proof. intros H. unfold JS.Reqb. destruct (Req_dec_T a b); [reflexivity | contradiction]. Qed.

Lemma Reqb_false (a b : R) : a <> b -> JS.Reqb a b = false.
Proof. intros H. unfold JS.Reqb. destruct (Req_dec_T a b); [contradiction | reflexivity]. Qed.

(** Case analysis on every comparison of reals in sight. *)
Ltac Rcases :=
  unfold JS.Rltb, JS.Rleb, JS.Reqb in *;
  repeat match goal with
  | |- context [Rlt_dec ?a ?b] => destruct (Rlt_dec a b)
  | |- context [Rle_dec ?a ?b] => destruct (Rle_dec a b)
  | |- context [Req_dec_T ?a ?b] => destruct (Req_dec_T a b)
  | H : context [Rlt_dec ?a ?b] |- _ => destruct (Rlt_dec a b)
  | H : context [Rle_dec ?a ?b] |- _ => destruct (Rle_dec a b)
  | H : context [Req_dec_T ?a ?b] |- _ => destruct (Req_dec_T a b)
  end;
  simpl in *; try reflexivity; try discriminate; try lra.

Lemma lt_Fin (a b : R) : (Fin a <? Fin b) = true <-> (a < b)%R.
Proof. simpl. split; intros H; Rcases. Qed.

Lemma le_Fin (a b : R) : (Fin a <=? Fin b) = true <-> (a <= b)%R.
Proof. simpl. split; intros H; Rcases. Qed.

(** A distance is a square root of a sum of squares: it vanishes only
    when both differences do. *)
Lemma sqrt_squares_0 (u v : R) :
  R_sqrt.sqrt (u * u + v * v) = 0%R -> u = 0%R /\ v = 0%R.
Proof.
  intros H. apply sqrt_eq_0 in H; [| nra].
  split; nra.
Qed.

Lemma sqrt_squares_pos (u v : R) : (0 <= R_sqrt.sqrt (u * u + v * v))%R.
Proof. apply sqrt_pos. Qed.

(** [Math.max(lo, Math.min(hi, v))] with finite [lo <= hi] lands in
    [[lo, hi]] as soon as [v] is a number. *)
Lemma clamp_range (lo hi : R) (v : num) :
  (lo <= hi)%R -> JS.isNaN v = false ->
  exists c : R,
    JS.max (Fin lo) (JS.min (Fin hi) v) = Fin c /\ (lo <= c <= hi)%R.
Proof.
  intros Hle Hv. destruct v as [| | r |]; simpl in Hv; try discriminate;
    unfold JS.max, JS.min; simpl.
  - exists lo. Rcases. split; [reflexivity | lra].
  - destruct (JS.Rltb r hi) eqn:E1; simpl.
    + destruct (JS.Rltb lo r) eqn:E2; [exists r | exists lo]; Rcases;
        split; try reflexivity; lra.
    + destruct (JS.Rltb lo hi) eqn:E2; [exists hi | exists lo]; Rcases;
        split; try reflexivity; lra.
  - destruct (JS.Rltb lo hi) eqn:E2; [exists hi | exists lo]; Rcases;
      split; try reflexivity; lra.
Qed.

(** A clamp of NaN is NaN. *)
Lemma clamp_NaN (lo hi : num) : JS.max lo (JS.min hi NaN) = NaN.
Proof.
  unfold JS.max, JS.min. simpl.
  rewrite orb_true_r. simpl. rewrite orb_true_r. reflexivity.
Qed.

Lemma add_NaN_r (a : num) : a + NaN = NaN.
Proof. destruct a; reflexivity. Qed.

Lemma mul_NaN_l (a : num) : NaN * a = NaN.
Proof. destruct a; reflexivity. Qed.

(* ================================================================= *)
(** ** Particle.update *)

(** With the pressed pointer exactly on the particle, the "unit vector"
    is [0 / 0]: both velocity components become NaN, and the speed cap
    lets NaN through. *)
Lemma repel_on_particle (config : Config) (a b : R) (p : Particle.t) :
  Particle.x p = Fin a -> Particle.y p = Fin b ->
  (0 < mouseRepelRadius config)%R ->
  repel config (Mouse.mk (Some (Fin a)) (Some (Fin b))) true p
  = Particle.set_v p NaN NaN.
Proof.
  intros Hx Hy HR. unfold repel. simpl. rewrite Hx, Hy. simpl.
  replace (a + - a)%R with 0%R by lra.
  replace (b + - b)%R with 0%R by lra.
  replace (0 * 0 + 0 * 0)%R with 0%R by lra.
  rewrite (Rltb_false 0 0) by lra. rewrite sqrt_0. simpl.
  rewrite (Rltb_true 0 (mouseRepelRadius config)) by lra.
  rewrite (Reqb_true 0 0) by reflexivity.
  unfold JS.inf_signed. rewrite (Rltb_false 0 0) by lra.
  rewrite !mul_NaN_l, !add_NaN_r, !clamp_NaN. reflexivity.
Qed.

(** A particle whose velocity is NaN moves to NaN and stays there: no
    boundary test is true of NaN. *)
Lemma update_NaN (config : Config) (W H : R) (m : Mouse.t) (down : bool)
    (p : Particle.t) :
  Particle.vx (repel config m down p) = NaN ->
  Particle.vy (repel config m down p) = NaN ->
  Particle.x (update config W H m down p) = NaN
  /\ Particle.y (update config W H m down p) = NaN.
Proof.
  intros Hvx Hvy. unfold update.
  set (q := repel config m down p) in *.
  assert (Hx : Particle.x (move q) = NaN)
    by (unfold move; simpl; rewrite Hvx; apply add_NaN_r).
  assert (Hy : Particle.y (move q) = NaN)
    by (unfold move; simpl; rewrite Hvy; apply add_NaN_r).
  assert (HbX : bounceX W (move q) = move q).
  { unfold bounceX. rewrite Hx. unfold JS.gt. simpl.
    destruct (Particle.radius (move q)); reflexivity. }
  rewrite HbX.
  assert (HbY : bounceY H (move q) = move q).
  { unfold bounceY. rewrite Hy. unfold JS.gt. simpl.
    destruct (Particle.radius (move q)); reflexivity. }
  rewrite HbY. split; assumption.
Qed.

Lemma squares_nonneg (u v : R) : (0 <= u * u + v * v)%R.
Proof.
  pose proof (Rle_0_sqr u) as Hu. pose proof (Rle_0_sqr v) as Hv.
  unfold Rsqr in *. lra.
Qed.

(** The force step at a positive distance [d] below the repulsion radius:
    the velocity gains [(1 - d / radius) * strength] along the unit vector
    from the pointer to the particle, and each component is then kept
    within three times the base speed. *)
Lemma repel_force (config : Config) (m : Mouse.t) (p : Particle.t)
    (a b mx my : R) :
  Particle.x p = Fin a -> Particle.y p = Fin b ->
  Mouse.x m = Some (Fin mx) -> Mouse.y m = Some (Fin my) ->
  let d := R_sqrt.sqrt ((a - mx) * (a - mx) + (b - my) * (b - my)) in
  let reach := mouseRepelRadius config in
  let maxSpeed := (particleSpeed config * 3)%R in
  let magnitude := ((1 - d / reach) * mouseRepelStrength config)%R in
  (0 < d < reach)%R ->
  repel config m true p
  = Particle.set_v p
      (JS.max (Fin (- maxSpeed))
         (JS.min (Fin maxSpeed)
            (Particle.vx p + Fin ((a - mx) / d * magnitude))))
      (JS.max (Fin (- maxSpeed))
         (JS.min (Fin maxSpeed)
            (Particle.vy p + Fin ((b - my) / d * magnitude)))).
Proof.
  intros Hx Hy Hmx Hmy d reach maxSpeed magnitude Hd.
  unfold repel. rewrite Hmx, Hmy, Hx, Hy. simpl.
  fold (a - mx)%R (b - my)%R.
  rewrite (Rltb_false ((a - mx) * (a - mx) + (b - my) * (b - my)) 0)
    by apply squares_nonneg.
  fold d. simpl. fold reach.
  rewrite (Rltb_true d reach) by lra.
  rewrite (Reqb_false d 0) by lra.
  rewrite (Reqb_false reach 0) by lra.
  reflexivity.
Qed.

(** The force step leaves the particle where it is. *)
Lemma repel_position (config : Config) (m : Mouse.t) (down : bool)
    (p : Particle.t) :
  Particle.x (repel config m down p) = Particle.x p
  /\ Particle.y (repel config m down p) = Particle.y p
  /\ Particle.radius (repel config m down p) = Particle.radius p
  /\ Particle.isEasterEgg (repel config m down p) = Particle.isEasterEgg p.
Proof.
  unfold repel. destruct down, (Mouse.x m), (Mouse.y m); try tauto.
  match goal with |- context [if ?c then _ else _] => destruct c end;
    simpl; tauto.
Qed.

Lemma add_Fin_numeric (a : num) (r : R) :
  JS.isNaN a = false -> JS.isNaN (a + Fin r) = false.
Proof. destruct a; simpl; congruence. Qed.

(** Unless the pressed pointer is exactly on the particle, the force step
    keeps the velocity a number. *)
Lemma repel_numeric (config : Config) (m : Mouse.t) (down : bool)
    (p : Particle.t) (a b : R) :
  Particle.x p = Fin a -> Particle.y p = Fin b ->
  numericVelocity p ->
  ~ (down = true /\ onParticle m p) ->
  numericVelocity (repel config m down p).
Proof.
  intros Hx Hy [Hvx Hvy] Havoid.
  destruct down; [| exact (conj Hvx Hvy)].
  destruct (Mouse.x m) as [mx |] eqn:Emx;
    [| unfold repel; rewrite Emx; exact (conj Hvx Hvy)].
  destruct (Mouse.y m) as [my |] eqn:Emy;
    [| unfold repel; rewrite Emx, Emy; exact (conj Hvx Hvy)].
  assert (Hidle : forall q, q = p -> numericVelocity q)
    by (intros q ->; exact (conj Hvx Hvy)).
  destruct mx as [| | mx |], my as [| | my |];
    try (apply Hidle; unfold repel; rewrite Emx, Emy, Hx, Hy; simpl;
         repeat match goal with
                | |- context [JS.Rltb ?u ?v] => destruct (JS.Rltb u v)
                end; reflexivity).
  set (d := R_sqrt.sqrt ((a - mx) * (a - mx) + (b - my) * (b - my))).
  destruct (Rlt_dec d (mouseRepelRadius config)) as [Hlt | Hge].
  - assert (Hd : (0 < d)%R).
    { destruct (Req_dec_T d 0) as [H0 | Hn0].
      - apply sqrt_squares_0 in H0. destruct H0 as [Hu Hv].
        exfalso. apply Havoid. split; [reflexivity |].
        unfold onParticle. rewrite Emx, Emy, Hx, Hy.
        split; do 2 f_equal; lra.
      - pose proof (sqrt_squares_pos (a - mx) (b - my)). fold d in H. lra. }
    rewrite (repel_force config m p a b mx my Hx Hy Emx Emy (conj Hd Hlt)).
    fold d. unfold numericVelocity. simpl.
    set (ms := (particleSpeed config * 3)%R).
    split.
    + destruct (Rle_dec (- ms) ms) as [Hms | Hms].
      * edestruct (clamp_range (- ms) ms) as [c [-> _]];
          [exact Hms | apply add_Fin_numeric; exact Hvx | reflexivity].
      * unfold JS.max, JS.min.
        destruct (Particle.vx p) as [| | v |]; simpl in *; try discriminate;
          Rcases.
    + destruct (Rle_dec (- ms) ms) as [Hms | Hms].
      * edestruct (clamp_range (- ms) ms) as [c [-> _]];
          [exact Hms | apply add_Fin_numeric; exact Hvy | reflexivity].
      * unfold JS.max, JS.min.
        destruct (Particle.vy p) as [| | v |]; simpl in *; try discriminate;
          Rcases.
  - apply Hidle. unfold repel. rewrite Emx, Emy, Hx, Hy. simpl.
    fold (a - mx)%R (b - my)%R.
    rewrite (Rltb_false ((a - mx) * (a - mx) + (b - my) * (b - my)) 0)
      by apply squares_nonneg.
    fold d. simpl. rewrite (Rltb_false d (mouseRepelRadius config)) by lra.
    reflexivity.
Qed.

Lemma Fin_add_numeric (r : R) (a : num) :
  JS.isNaN a = false -> JS.isNaN (Fin r + a) = false.
Proof. destruct a; simpl; congruence. Qed.

Lemma neg_numeric (a : num) : JS.isNaN (- a) = JS.isNaN a.
Proof. destruct a; reflexivity. Qed.

(** The boundary check on one axis: whenever the coordinate is a number,
    it ends between [radius] and [W - radius]. *)
Lemma bounceX_range (W r : R) (p : Particle.t) :
  Particle.radius p = Fin r -> (r <= W - r)%R ->
  JS.isNaN (Particle.x p) = false ->
  exists c : R,
    Particle.x (bounceX W p) = Fin c /\ (r <= c <= W - r)%R.
Proof.
  intros Hr HW Hx. unfold bounceX. rewrite Hr.
  destruct ((Particle.x p + Fin r >? Fin W) || (Particle.x p - Fin r <? Fin 0))
    eqn:E.
  - simpl. apply clamp_range; assumption.
  - apply orb_false_elim in E. destruct E as [E1 E2].
    destruct (Particle.x p) as [| | a |]; simpl in *; try discriminate.
    exists a. unfold JS.gt in E1. simpl in E1. split; [reflexivity |]. Rcases.
Qed.

Lemma bounceY_range (H r : R) (p : Particle.t) :
  Particle.radius p = Fin r -> (r <= H - r)%R ->
  JS.isNaN (Particle.y p) = false ->
  exists c : R,
    Particle.y (bounceY H p) = Fin c /\ (r <= c <= H - r)%R.
Proof.
  intros Hr HH Hy. unfold bounceY. rewrite Hr.
  destruct ((Particle.y p + Fin r >? Fin H) || (Particle.y p - Fin r <? Fin 0))
    eqn:E.
  - simpl. apply clamp_range; assumption.
  - apply orb_false_elim in E. destruct E as [E1 E2].
    destruct (Particle.y p) as [| | a |]; simpl in *; try discriminate.
    exists a. unfold JS.gt in E1. simpl in E1. split; [reflexivity |]. Rcases.
Qed.

(** What each boundary check leaves alone. *)
Lemma bounceX_frame (W : R) (p : Particle.t) :
  Particle.y (bounceX W p) = Particle.y p
  /\ Particle.vy (bounceX W p) = Particle.vy p
  /\ Particle.radius (bounceX W p) = Particle.radius p
  /\ Particle.isEasterEgg (bounceX W p) = Particle.isEasterEgg p
  /\ JS.isNaN (Particle.vx (bounceX W p)) = JS.isNaN (Particle.vx p).
Proof.
  unfold bounceX.
  match goal with |- context [if ?c then _ else _] => destruct c end;
    simpl; rewrite ?neg_numeric; tauto.
Qed.

Lemma bounceY_frame (H : R) (p : Particle.t) :
  Particle.x (bounceY H p) = Particle.x p
  /\ Particle.vx (bounceY H p) = Particle.vx p
  /\ Particle.radius (bounceY H p) = Particle.radius p
  /\ Particle.isEasterEgg (bounceY H p) = Particle.isEasterEgg p
  /\ JS.isNaN (Particle.vy (bounceY H p)) = JS.isNaN (Particle.vy p).
Proof.
  unfold bounceY.
  match goal with |- context [if ?c then _ else _] => destruct c end;
    simpl; rewrite ?neg_numeric; tauto.
Qed.

(** A particle inside the surface has finite coordinates. *)
Lemma inBounds_finite (W H r : R) (p : Particle.t) :
  Particle.radius p = Fin r -> inBounds W H p ->
  exists a b : R, Particle.x p = Fin a /\ Particle.y p = Fin b
    /\ (r <= a <= W - r)%R /\ (r <= b <= H - r)%R.
Proof.
  intros Hr (H1 & H2 & H3 & H4). rewrite Hr in *.
  destruct (Particle.x p) as [| | a |], (Particle.y p) as [| | b |];
    simpl in *; try discriminate.
  exists a, b. repeat split; try reflexivity; Rcases.
Qed.

(** One tick keeps a particle inside the surface, as long as its velocity
    is a number and the pressed pointer is not exactly on it. *)
Lemma update_inBounds (config : Config) (W H r : R) (m : Mouse.t)
    (down : bool) (p : Particle.t) :
  Particle.radius p = Fin r ->
  (2 * r <= W)%R -> (2 * r <= H)%R ->
  inBounds W H p -> numericVelocity p ->
  ~ (down = true /\ onParticle m p) ->
  let q := update config W H m down p in
  Particle.radius q = Fin r /\ inBounds W H q /\ numericVelocity q.
Proof.
  intros Hr HW HH Hin Hnum Havoid q.
  destruct (inBounds_finite W H r p Hr Hin) as (a & b & Hx & Hy & _ & _).
  pose proof (repel_numeric config m down p a b Hx Hy Hnum Havoid) as [Hv1 Hv2].
  destruct (repel_position config m down p) as (Px & Py & Pr & _).
  set (q1 := repel config m down p) in *.
  assert (Hmx : JS.isNaN (Particle.x (move q1)) = false)
    by (unfold move; simpl; rewrite Px, Hx; apply Fin_add_numeric; exact Hv1).
  assert (Hmy : JS.isNaN (Particle.y (move q1)) = false)
    by (unfold move; simpl; rewrite Py, Hy; apply Fin_add_numeric; exact Hv2).
  assert (Hmr : Particle.radius (move q1) = Fin r)
    by (unfold move; simpl; rewrite Pr; exact Hr).
  set (q2 := move q1) in *.
  destruct (bounceX_frame W q2) as (Fy & Fvy & Fr & _ & Fvx).
  destruct (bounceX_range W r q2 Hmr ltac:(lra) Hmx) as (c & Hc & Hcr).
  set (q3 := bounceX W q2) in *.
  assert (Hr3 : Particle.radius q3 = Fin r) by (rewrite Fr; exact Hmr).
  assert (Hy3 : JS.isNaN (Particle.y q3) = false) by (rewrite Fy; exact Hmy).
  destruct (bounceY_frame H q3) as (Gx & Gvx & Gr & _ & Gvy).
  destruct (bounceY_range H r q3 Hr3 ltac:(lra) Hy3) as (e & He & Her).
  assert (Hq : q = bounceY H q3) by reflexivity.
  rewrite Hq. split; [rewrite Gr; exact Hr3 |]. split.
  - unfold inBounds. rewrite Gr, Hr3, Gx, Hc, He. simpl.
    repeat split; apply Rleb_true; lra.
  - unfold numericVelocity. rewrite Gvx, Gvy, Fvx, Fvy. split; assumption.
Qed.

(** Any number of ticks, with any pointer states that never put the
    pressed pointer exactly on the particle. *)
Lemma updates_inBounds (config : Config) (W H r : R)
    (trace : list (Mouse.t * bool)) :
  (2 * r <= W)%R -> (2 * r <= H)%R ->
  forall p : Particle.t,
    Particle.radius p = Fin r ->
    inBounds W H p -> numericVelocity p ->
    avoids config W H trace p ->
    inBounds W H (updates config W H trace p).
Proof.
  intros HW HH. induction trace as [| [m down] rest IH];
    intros p Hr Hin Hnum Hav; simpl in *.
  - exact Hin.
  - destruct Hav as [Hnow Hrest].
    destruct (update_inBounds config W H r m down p Hr HW HH Hin Hnum Hnow)
      as (Hr' & Hin' & Hnum').
    apply IH; assumption.
Qed.

(** A tick never changes which particle is the special one. *)
Lemma update_isEasterEgg (config : Config) (W H : R) (m : Mouse.t)
    (down : bool) (p : Particle.t) :
  Particle.isEasterEgg (update config W H m down p) = Particle.isEasterEgg p.
Proof.
  unfold update.
  destruct (bounceY_frame H (bounceX W (move (repel config m down p))))
    as (_ & _ & _ & -> & _).
  destruct (bounceX_frame W (move (repel config m down p)))
    as (_ & _ & _ & -> & _).
  unfold move. simpl.
  destruct (repel_position config m down p) as (_ & _ & _ & ->).
  reflexivity.
Qed.

(* ================================================================= *)
(** ** init *)

Lemma makeParticles_length (config : Config) (random : nat -> R) (W H : R)
    (n k : nat) :
  List.length (makeParticles config random W H n k) = n.
Proof.
  revert k. induction n as [| n IH]; intros k; simpl;
    [reflexivity | rewrite IH; reflexivity].
Qed.

Lemma makeParticles_plain (config : Config) (random : nat -> R) (W H : R)
    (n k : nat) :
  countSpecial (makeParticles config random W H n k) = 0%nat.
Proof.
  revert k. induction n as [| n IH]; intros k; [reflexivity |].
  unfold countSpecial in *. simpl. apply IH.
Qed.

(** Marking one particle of an unmarked array leaves exactly one marked. *)
Lemma markEgg_one (ps : list Particle.t) :
  countSpecial ps = 0%nat ->
  forall i : nat, (i < List.length ps)%nat ->
  exists ps' : list Particle.t,
    markEgg ps i = Some ps'
    /\ List.length ps' = List.length ps
    /\ countSpecial ps' = 1%nat.
Proof.
  unfold countSpecial.
  induction ps as [| p rest IH]; intros H0 i Hi; simpl in *; [lia |].
  destruct (Particle.isEasterEgg p) eqn:Ep; simpl in H0; [discriminate |].
  destruct i as [| i].
  - eexists. split; [reflexivity |]. simpl. rewrite H0. split; reflexivity.
  - destruct (IH H0 i ltac:(lia)) as (rest' & -> & Hlen & Hcount).
    eexists. split; [reflexivity |]. simpl. rewrite Ep, Hlen, Hcount.
    split; reflexivity.
Qed.

(** The index clamp: whatever integer the random draw produced, the
    clamped value denotes an index of the array. *)
Lemma clamped_index (n : nat) (z : Z) :
  (0 < n)%nat ->
  exists i : nat,
    toIndex (JS.max (Fin 0) (JS.min (Fin (INR n) - Fin 1) (Fin (IZR z))))
    = Some i
    /\ (i < n)%nat.
Proof.
  intros Hn.
  assert (Hidx : forall k : Z, (0 <= k < Z.of_nat n)%Z ->
            exists i, toIndex (Fin (IZR k)) = Some i /\ (i < n)%nat).
  { intros k Hk. exists (Z.to_nat k). unfold toIndex.
    rewrite ZfloorZ. rewrite Rleb_true by (apply IZR_le; lia).
    rewrite Reqb_true by reflexivity. simpl. split; [reflexivity | lia]. }
  simpl. replace (INR n + - (1))%R with (IZR (Z.of_nat n - 1))
    by (rewrite minus_IZR, <- INR_IZR_INZ; lra).
  unfold JS.max, JS.min. simpl.
  destruct (Rlt_dec (IZR z) (IZR (Z.of_nat n - 1))) as [H1 | H1];
    [rewrite (Rltb_true _ _ H1) | rewrite Rltb_false by lra].
  - apply lt_IZR in H1.
    destruct (Rlt_dec 0 (IZR z)) as [H2 | H2];
      [rewrite (Rltb_true _ _ H2) | rewrite Rltb_false by lra].
    + apply lt_IZR in H2. apply Hidx. lia.
    + apply (Hidx 0%Z). lia.
  - destruct (Rlt_dec 0 (IZR (Z.of_nat n - 1))) as [H2 | H2];
      [rewrite (Rltb_true _ _ H2) | rewrite Rltb_false by lra].
    + apply Hidx. lia.
    + apply (Hidx 0%Z). lia.
Qed.

Lemma countSpecial_update (config : Config) (W H : R) (m : Mouse.t)
    (down : bool) (ps : list Particle.t) :
  countSpecial (map (update config W H m down) ps) = countSpecial ps.
Proof.
  unfold countSpecial. induction ps as [| p rest IH]; [reflexivity |].
  simpl. rewrite update_isEasterEgg.
  destruct (Particle.isEasterEgg p); simpl; rewrite IH; reflexivity.
Qed.

(** Starting the animation moves the particles but neither adds, removes
    nor re-marks any. *)
Lemma startAnimation_particles (config : Config) (s : State) :
  List.length (particles (startAnimation config s)) = List.length (particles s)
  /\ countSpecial (particles (startAnimation config s))
     = countSpecial (particles s).
Proof.
  unfold startAnimation.
  destruct (negb (truthy (animationFrameId s))); [| split; reflexivity].
  unfold animate.
  destruct (if waveOnClick config then _ else _) as [waves d1]. simpl.
  rewrite length_map, countSpecial_update. split; reflexivity.
Qed.

(** Claim C3.  Every call of [init] succeeds and leaves [particleCount]
    particles; exactly one of them is the special particle when the egg is
    enabled and there is at least one particle, and none is otherwise.
    This holds for any sequence of random draws, under either placement
    policy, and whatever the state before the call. *)
Theorem init_marks_exactly_one (config : Config) (random : nat -> R)
    (innerWidth innerHeight : R) (s : State) :
  exists s' : State,
    init config random innerWidth innerHeight s = Some s'
    /\ List.length (particles s') = particleCount config
    /\ countSpecial (particles s')
       = if enableEasterEgg config && (0 <? particleCount config)%nat
         then 1%nat else 0%nat.
Proof.
  unfold init. simpl.
  set (ps := makeParticles config random innerWidth innerHeight
               (particleCount config) (randomCalls s)).
  assert (Hlen : List.length ps = particleCount config)
    by apply makeParticles_length.
  assert (Hplain : countSpecial ps = 0%nat) by apply makeParticles_plain.
  rewrite Hlen.
  destruct (enableEasterEgg config && (0 <? particleCount config)%nat) eqn:E.
  - apply andb_prop in E. destruct E as [_ Hpos]. apply Nat.ltb_lt in Hpos.
    assert (Hmark : forall z : Z, forall s0 : State,
      exists s' : State,
        match
          match toIndex (JS.max (Fin 0)
                  (JS.min (Fin (INR (particleCount config)) - Fin 1)
                          (Fin (IZR z)))) with
          | Some i =>
              match markEgg ps i with
              | Some ps' => Some (set_particles ps' s0)
              | None => None
              end
          | None => None
          end
        with
        | Some s1 => Some (startAnimation config s1)
        | None => None
        end = Some s'
        /\ List.length (particles s') = particleCount config
        /\ countSpecial (particles s') = 1%nat).
    { intros z s0.
      destruct (clamped_index (particleCount config) z Hpos) as (i & -> & Hi).
      destruct (markEgg_one ps Hplain i ltac:(lia)) as (ps' & -> & Hl & Hc).
      eexists. split; [reflexivity |].
      destruct (startAnimation_particles config (set_particles ps' s0))
        as [-> ->].
      simpl. split; congruence. }
    destruct (easterEggAlwaysFirst config); simpl.
    + apply (Hmark 0%Z).
    + apply Hmark.
  - eexists. split; [reflexivity |].
    match goal with |- context [startAnimation config ?s0] =>
      destruct (startAnimation_particles config s0) as [-> ->] end.
    simpl. split; assumption.
Qed.

(* ================================================================= *)
(** ** The pointer exactly on a particle *)

(** Claim C2.  The claim has the force skipped when the distance from the
    pointer to the particle is exactly 0.  [update] has no such guard: on the
    shipped configuration, with the pointer pressed on the centre of
    [centred], the force step divides 0 by 0 and both velocity components
    come out NaN instead of staying 0.1. *)
Theorem force_at_distance_zero :
  Particle.vx centred = Fin 0.1 /\ Particle.vy centred = Fin 0.1
  /\ Particle.vx (repel shipped pointerOnCentre true centred) = NaN
  /\ Particle.vy (repel shipped pointerOnCentre true centred) = NaN.
Proof.
  split; [reflexivity |]. split; [reflexivity |].
  unfold pointerOnCentre.
  rewrite (repel_on_particle shipped 100 100 centred)
    by (try reflexivity; simpl; lra).
  split; reflexivity.
Qed.

(** NaN is absorbing: a particle whose abscissa and horizontal velocity
    are NaN keeps them through every tick, whatever the pointer does. *)
Lemma update_lost (config : Config) (W H : R) (m : Mouse.t) (down : bool)
    (p : Particle.t) :
  Particle.x p = NaN -> Particle.vx p = NaN ->
  Particle.x (update config W H m down p) = NaN
  /\ Particle.vx (update config W H m down p) = NaN.
Proof.
  intros Hx Hvx.
  assert (Hrepel : repel config m down p = p).
  { unfold repel. destruct down, (Mouse.x m), (Mouse.y m); try reflexivity.
    rewrite Hx. reflexivity. }
  unfold update. rewrite Hrepel.
  destruct (bounceY_frame H (bounceX W (move p))) as (-> & -> & _).
  assert (Hmove : Particle.x (move p) = NaN)
    by (unfold move; simpl; rewrite Hx; reflexivity).
  assert (HbX : bounceX W (move p) = move p).
  { unfold bounceX. rewrite Hmove. unfold JS.gt. simpl.
    destruct (Particle.radius (move p)); reflexivity. }
  rewrite HbX. split; [exact Hmove | exact Hvx].
Qed.

Lemma updates_lost (config : Config) (W H : R)
    (trace : list (Mouse.t * bool)) :
  forall p : Particle.t,
    Particle.x p = NaN -> Particle.vx p = NaN ->
    Particle.x (updates config W H trace p) = NaN.
Proof.
  induction trace as [| [m down] rest IH]; intros p Hx Hvx; simpl.
  - exact Hx.
  - destruct (update_lost config W H m down p Hx Hvx) as [Hx' Hvx'].
    apply IH; assumption.
Qed.

(** Claim C1.  The claim keeps every particle that starts inside the
    surface inside it, whatever the pointer does.  One tick with the pointer
    pressed on the centre of [centred], which starts inside an 800 x 600
    surface, moves it to (NaN, NaN), which is inside no surface; and no
    later tick, with any pointer state, brings it back. *)
Theorem tick_leaves_bounds :
  inBounds 800 600 centred
  /\ Particle.x (update shipped 800 600 pointerOnCentre true centred) = NaN
  /\ Particle.y (update shipped 800 600 pointerOnCentre true centred) = NaN
  /\ forall trace : list (Mouse.t * bool),
       ~ inBounds 800 600
           (updates shipped 800 600 ((pointerOnCentre, true) :: trace) centred).
Proof.
  assert (Hv : repel shipped pointerOnCentre true centred
               = Particle.set_v centred NaN NaN).
  { unfold pointerOnCentre.
    apply (repel_on_particle shipped 100 100 centred);
      try reflexivity; simpl; lra. }
  destruct (update_NaN shipped 800 600 pointerOnCentre true centred)
    as [Hx Hy]; try (rewrite Hv; reflexivity).
  split.
  - unfold inBounds, centred. simpl.
    repeat split; apply Rleb_true; lra.
  - split; [exact Hx |]. split; [exact Hy |].
    intros trace (H1 & _). simpl in H1.
    rewrite updates_lost in H1; [| exact Hx |].
    + destruct (Particle.radius _); discriminate H1.
    + unfold update. rewrite Hv.
      destruct (bounceY_frame 600
                  (bounceX 800 (move (Particle.set_v centred NaN NaN))))
        as (_ & -> & _).
      reflexivity.
Qed.

(* ================================================================= *)
(** ** The mousedown listener *)

(** The scan stops at the first special particle in range, after one call
    of [showEasterEggPopup]; plain particles in range are passed over. *)
Lemma scanForEgg_hit (popupElement : bool) (mx my : num)
    (ps : list Particle.t) (s : State) :
  (exists p, In p ps /\ Particle.isEasterEgg p = true
             /\ hitTest mx my p = true) ->
  scanForEgg popupElement mx my ps s
  = (set_easterEggParticleFound true (showEasterEggPopup popupElement s), true).
Proof.
  induction ps as [| q rest IH]; intros (p & Hin & Hegg & Hhit).
  - destruct Hin.
  - simpl. destruct (hitTest mx my q) eqn:Hq.
    + destruct (Particle.isEasterEgg q) eqn:Eq; [reflexivity |].
      apply IH. exists p. destruct Hin as [-> | Hin]; [congruence | auto].
    + apply IH. exists p. destruct Hin as [-> | Hin]; [congruence | auto].
Qed.

Lemma scanForEgg_miss (popupElement : bool) (mx my : num)
    (ps : list Particle.t) (s : State) :
  (forall p, In p ps -> Particle.isEasterEgg p = true ->
             hitTest mx my p = false) ->
  scanForEgg popupElement mx my ps s = (s, false).
Proof.
  induction ps as [| q rest IH]; intros Hmiss; [reflexivity |].
  simpl. destruct (hitTest mx my q) eqn:Hq.
  - destruct (Particle.isEasterEgg q) eqn:Eq.
    + rewrite (Hmiss q (or_introl eq_refl) Eq) in Hq. discriminate.
    + apply IH. intros p Hp. apply Hmiss. right. exact Hp.
  - apply IH. intros p Hp. apply Hmiss. right. exact Hp.
Qed.

(** The listener on a press that reaches the special particle. *)
Lemma mousedown_on_egg (config : Config) (popupElement : bool)
    (event : MouseEvent) (s : State) (p : Particle.t) :
  enableEasterEgg config = true ->
  In p (particles s) -> Particle.isEasterEgg p = true ->
  hitTest (pressX event s) (pressY event s) p = true ->
  mousedown config popupElement event s
  = set_easterEggParticleFound true
      (showEasterEggPopup popupElement
         (updateMousePosition event (set_isMouseDown true s))).
Proof.
  intros Hen Hin Hegg Hhit. unfold mousedown. rewrite Hen. simpl.
  fold (pressX event s) (pressY event s).
  rewrite scanForEgg_hit by (exists p; auto).
  rewrite andb_false_r. reflexivity.
Qed.

(** The listener on a press that reaches no special particle, or with the
    egg disabled. *)
Lemma mousedown_off_egg (config : Config) (popupElement : bool)
    (event : MouseEvent) (s : State) :
  enableEasterEgg config = false
  \/ (forall p, In p (particles s) -> Particle.isEasterEgg p = true ->
        hitTest (pressX event s) (pressY event s) p = false) ->
  mousedown config popupElement event s
  = let s1 := updateMousePosition event (set_isMouseDown true s) in
    if waveOnClick config
    then set_activeWaves
           (activeWaves s
            ++ [newWave config (pressX event s) (pressY event s)]) s1
    else s1.
Proof.
  intros Hoff. unfold mousedown. simpl.
  fold (pressX event s) (pressY event s).
  destruct (enableEasterEgg config).
  - destruct Hoff as [Hoff | Hmiss]; [discriminate |].
    rewrite (scanForEgg_miss popupElement _ _ _ _ Hmiss). simpl.
    rewrite andb_true_r. destruct (waveOnClick config); reflexivity.
  - simpl. rewrite andb_true_r. destruct (waveOnClick config); reflexivity.
Qed.

(** The position the listener computes does not depend on the found flag
    and is not moved by the listener itself. *)
Lemma press_position_stable (config : Config) (popupElement : bool)
    (event : MouseEvent) (s : State) :
  pressX event (mousedown config popupElement event s) = pressX event s
  /\ pressY event (mousedown config popupElement event s) = pressY event s
  /\ particles (mousedown config popupElement event s) = particles s.
Proof.
  assert (Hscan : forall mx my ps s0,
    canvas_width (fst (scanForEgg popupElement mx my ps s0)) = canvas_width s0
    /\ canvas_height (fst (scanForEgg popupElement mx my ps s0))
       = canvas_height s0
    /\ particles (fst (scanForEgg popupElement mx my ps s0)) = particles s0
    /\ mouse (fst (scanForEgg popupElement mx my ps s0)) = mouse s0).
  { intros mx my ps s0. induction ps as [| q rest IH]; simpl; [tauto |].
    destruct (hitTest mx my q); [| exact IH].
    destruct (Particle.isEasterEgg q); [| exact IH].
    unfold showEasterEggPopup. destruct popupElement; simpl; tauto. }
  unfold pressX, pressY, mousedown. simpl.
  destruct (enableEasterEgg config).
  - match goal with |- context [scanForEgg popupElement ?mx ?my ?ps ?s0] =>
      destruct (Hscan mx my ps s0) as (Hw & Hh & Hp & Hm);
      destruct (scanForEgg popupElement mx my ps s0) as [s1 clicked]
    end.
    simpl in *. rewrite Hm. simpl.
    destruct (waveOnClick config && negb clicked); simpl;
      rewrite Hw, Hh, Hp; tauto.
  - simpl. destruct (waveOnClick config); simpl; tauto.
Qed.

(** Evaluation of a distance test on concrete coordinates: [d] is the
    distance. *)
Ltac distance_is d :=
  simpl; rewrite ?Reqb_false by lra; simpl;
  match goal with
  | |- context [R_sqrt.sqrt ?u] => replace u with (d * d)%R by lra
  end;
  rewrite sqrt_square, Rltb_false by lra; simpl.

(** Claim C4.  With the egg enabled, a press within [radius + 20] of the
    special particle calls [showEasterEggPopup] exactly once and pushes no
    wave, whatever other particles the array holds and wherever they are. *)
Theorem press_on_egg_signals_once (config : Config) (popupElement : bool)
    (event : MouseEvent) (s : State) (p : Particle.t) :
  enableEasterEgg config = true ->
  In p (particles s) -> Particle.isEasterEgg p = true ->
  hitTest (pressX event s) (pressY event s) p = true ->
  popupCalls (mousedown config popupElement event s) = S (popupCalls s)
  /\ activeWaves (mousedown config popupElement event s) = activeWaves s.
Proof.
  intros Hen Hin Hegg Hhit.
  rewrite (mousedown_on_egg config popupElement event s p Hen Hin Hegg Hhit).
  unfold showEasterEggPopup. destruct popupElement; simpl; split; reflexivity.
Qed.

Lemma press_on_egg_signals_once_witness :
  hitTest (pressX (pressAt 300 200) scene) (pressY (pressAt 300 200) scene)
          neighbour = true
  /\ popupCalls (mousedown shipped true (pressAt 300 200) scene) = 1%nat
  /\ activeWaves (mousedown shipped true (pressAt 300 200) scene) = [].
Proof.
  split.
  - unfold hitTest, pressX, pressY, pressAt, scene, neighbour.
    distance_is 10%R. apply Rltb_true. lra.
  - apply (press_on_egg_signals_once shipped true (pressAt 300 200) scene egg).
    + reflexivity.
    + simpl. right. left. reflexivity.
    + reflexivity.
    + unfold hitTest, pressX, pressY, pressAt, scene, egg.
      distance_is 0%R. apply Rltb_true. lra.
Defined.

(** Claim C7.  With waves enabled, a press that reaches no special
    particle (or any press when the egg is disabled) appends exactly one
    wave to [activeWaves]: centred on the press position, with radius 0,
    [maxRadius] the repulsion radius, [life] and [initialLife] the
    configured duration and [initialLineWidth] the configured width; no
    popup call is made.  The listener of [part_001], which has no egg,
    appends the same wave on every press. *)
Theorem press_off_egg_spawns_wave (config : Config) (popupElement : bool)
    (event : MouseEvent) (s : State) :
  waveOnClick config = true ->
  enableEasterEgg config = false
  \/ (forall p, In p (particles s) -> Particle.isEasterEgg p = true ->
        hitTest (pressX event s) (pressY event s) p = false) ->
  let wave :=
    Wave.mk (pressX event s) (pressY event s) (Fin 0)
      (Fin (mouseRepelRadius config))
      (waveDurationFrames config) (waveDurationFrames config)
      (Fin (waveInitialLineWidth config)) in
  activeWaves (mousedown config popupElement event s)
  = activeWaves s ++ [wave]
  /\ popupCalls (mousedown config popupElement event s) = popupCalls s
  /\ activeWaves (WavesOnly.mousedown config event s) = activeWaves s ++ [wave].
Proof.
  intros Hwave Hoff wave.
  rewrite (mousedown_off_egg config popupElement event s Hoff).
  unfold WavesOnly.mousedown. rewrite Hwave. simpl.
  repeat split; reflexivity.
Qed.

Lemma press_off_egg_spawns_wave_witness :
  activeWaves (mousedown shipped true (pressAt 500 200) scene)
  = [Wave.mk (pressX (pressAt 500 200) scene) (pressY (pressAt 500 200) scene)
       (Fin 0) (Fin 150) 90 90 (Fin 1)].
Proof.
  apply (press_off_egg_spawns_wave shipped true (pressAt 500 200) scene).
  - reflexivity.
  - right. intros p [<- | [<- | []]] Hegg.
    + discriminate Hegg.
    + unfold hitTest, pressX, pressY, pressAt, scene, egg.
      distance_is 200%R. apply Rltb_false. lra.
Defined.

(** Claim C10.  The egg-found signal is not latched.  A press that reaches
    the special particle gives the same result whether
    [easterEggParticleFound] was already set or not: the popup function is
    called, the flag ends up set, and when the popup element exists it is
    made visible, the pending hide timer is cleared and a fresh one is
    started.  Two such presses in a row call the popup function twice. *)
Theorem egg_signal_not_latched (config : Config) (random : nat -> R)
    (popupElement : bool) (event : MouseEvent) (s : State) (p : Particle.t)
    (found : bool) :
  enableEasterEgg config = true ->
  In p (particles s) -> Particle.isEasterEgg p = true ->
  hitTest (pressX event s) (pressY event s) p = true ->
  let s0 := set_easterEggParticleFound found s in
  let s1 := mousedown config popupElement event s0 in
  s1 = mousedown config popupElement event s
  /\ popupCalls s1 = S (popupCalls s)
  /\ easterEggParticleFound s1 = true
  /\ (popupElement = true ->
      popupVisible s1 = true
      /\ popupTimeoutId s1 = Some (freshHandle s)
      /\ pendingTimeouts s1
         = (if truthy (popupTimeoutId s)
            then clearTimeout (popupTimeoutId s) (pendingTimeouts s)
            else pendingTimeouts s) ++ [freshHandle s])
  /\ (exists s2 : State,
        run config random popupElement
          [MousePressed event; MousePressed event] s0 = Some s2
        /\ popupCalls s2 = S (S (popupCalls s))).
Proof.
  intros Hen Hin Hegg Hhit s0 s1.
  assert (H1 : s1 = mousedown config popupElement event s).
  { unfold s1, s0.
    rewrite (mousedown_on_egg config popupElement event
               (set_easterEggParticleFound found s) p Hen Hin Hegg Hhit).
    rewrite (mousedown_on_egg config popupElement event s p Hen Hin Hegg Hhit).
    unfold showEasterEggPopup. destruct popupElement; reflexivity. }
  assert (H2 : popupCalls s1 = S (popupCalls s)).
  { rewrite H1.
    rewrite (mousedown_on_egg config popupElement event s p Hen Hin Hegg Hhit).
    unfold showEasterEggPopup. destruct popupElement; reflexivity. }
  split; [exact H1 |]. split; [exact H2 |]. split; [| split].
  - rewrite H1.
    rewrite (mousedown_on_egg config popupElement event s p Hen Hin Hegg Hhit).
    reflexivity.
  - intros ->. rewrite H1.
    rewrite (mousedown_on_egg config true event s p Hen Hin Hegg Hhit).
    unfold showEasterEggPopup. simpl. repeat split; reflexivity.
  - exists (mousedown config popupElement event s1).
    split; [reflexivity |].
    destruct (press_position_stable config popupElement event s)
      as (Hx & Hy & Hp).
    rewrite <- H1 in Hx, Hy, Hp.
    rewrite (mousedown_on_egg config popupElement event s1 p Hen);
      [| rewrite Hp; exact Hin | exact Hegg | rewrite Hx, Hy; exact Hhit].
    unfold showEasterEggPopup. destruct popupElement; simpl; rewrite H2;
      reflexivity.
Qed.

Lemma egg_signal_not_latched_witness :
  let s1 := mousedown shipped true (pressAt 300 200)
              (set_easterEggParticleFound true scene) in
  popupCalls s1 = 1%nat
  /\ popupVisible s1 = true
  /\ exists s2 : State,
       run shipped (fun _ => 0%R) true
         [MousePressed (pressAt 300 200); MousePressed (pressAt 300 200)]
         (set_easterEggParticleFound true scene) = Some s2
       /\ popupCalls s2 = 2%nat.
Proof.
  destruct (egg_signal_not_latched shipped (fun _ => 0%R) true
              (pressAt 300 200) scene egg true)
    as (_ & Hcalls & _ & Hpopup & Hagain).
  - reflexivity.
  - simpl. right. left. reflexivity.
  - reflexivity.
  - unfold hitTest, pressX, pressY, pressAt, scene, egg.
    distance_is 0%R. apply Rltb_true. lra.
  - split; [exact Hcalls |]. split; [apply Hpopup; reflexivity | exact Hagain].
Defined.

(* ================================================================= *)
(** ** Waves *)

(** The callback always performs the update, and its verdict does not
    depend on the colour. *)
Lemma waveCallback_update (config : Config) (rgb : string) (alpha : num)
    (w : Wave.t) :
  fst (fst (waveCallback config rgb alpha w)) = waveUpdate w
  /\ snd (fst (waveCallback config rgb alpha w)) = waveKept config alpha w.
Proof.
  unfold waveKept, waveCallback.
  destruct ((0 <? Wave.life (waveUpdate w))%Z
            && (Wave.currentRadius (waveUpdate w)
                <? Wave.maxRadius (waveUpdate w) * Fin 1.1));
    [| split; reflexivity].
  destruct ((waveLineWidth (waveUpdate w) <=? Fin 0)
            || (waveOpacity config alpha (waveUpdate w) <=? Fin 0));
    split; reflexivity.
Qed.

(** The verdict, as one boolean expression. *)
Lemma waveKept_unfold (config : Config) (alpha : num) (w : Wave.t) :
  waveKept config alpha w
  = (0 <? Wave.life (waveUpdate w))%Z
    && (Wave.currentRadius (waveUpdate w)
        <? Wave.maxRadius (waveUpdate w) * Fin 1.1)
    && negb ((waveLineWidth (waveUpdate w) <=? Fin 0)
             || (waveOpacity config alpha (waveUpdate w) <=? Fin 0)).
Proof.
  unfold waveKept, waveCallback.
  destruct ((0 <? Wave.life (waveUpdate w))%Z
            && (Wave.currentRadius (waveUpdate w)
                <? Wave.maxRadius (waveUpdate w) * Fin 1.1));
    [| reflexivity].
  destruct ((waveLineWidth (waveUpdate w) <=? Fin 0)
            || (waveOpacity config alpha (waveUpdate w) <=? Fin 0));
    reflexivity.
Qed.

Lemma filterWaves_app (config : Config) (rgb : string) (alpha : num)
    (ws vs : list Wave.t) :
  advanceWaves config rgb alpha (ws ++ vs)
  = advanceWaves config rgb alpha ws ++ advanceWaves config rgb alpha vs.
Proof.
  unfold advanceWaves. induction ws as [| w rest IH]; [reflexivity |].
  simpl.
  destruct (waveCallback config rgb alpha w) as [[w' keep] d].
  destruct (filterWaves config rgb alpha (rest ++ vs)) as [ws1 d1].
  destruct (filterWaves config rgb alpha rest) as [ws2 d2].
  simpl in *. destruct keep; simpl; rewrite IH; reflexivity.
Qed.

Lemma advanceWavesN_app (config : Config) (rgb : string) (alpha : num)
    (n : nat) (ws vs : list Wave.t) :
  advanceWavesN config rgb alpha n (ws ++ vs)
  = advanceWavesN config rgb alpha n ws ++ advanceWavesN config rgb alpha n vs.
Proof.
  unfold advanceWavesN. induction n as [| n IH]; [reflexivity |].
  simpl. rewrite IH. apply filterWaves_app.
Qed.

(** The collection that holds one wave, after [n] frames. *)
Lemma advanceWavesN_single (config : Config) (rgb : string) (alpha : num)
    (n : nat) (w : Wave.t) :
  advanceWavesN config rgb alpha n [w]
  = survivors (waveAfter config alpha n w).
Proof.
  unfold advanceWavesN. revert w. induction n as [| n IH]; intros w;
    [reflexivity |].
  rewrite Nat.iter_succ_r. simpl.
  destruct (waveCallback_update config rgb alpha w) as [Hu Hk].
  unfold advanceWaves at 2. simpl.
  destruct (waveCallback config rgb alpha w) as [[w' keep] d].
  simpl in *. subst w' keep.
  destruct (waveKept config alpha w); simpl.
  - apply IH.
  - clear. induction n as [| n IH]; [reflexivity | simpl; rewrite IH; reflexivity].
Qed.

(** [waveAt] is what it is said to be. *)
Lemma waveAt_0 (config : Config) (mx my : num) :
  waveAt config mx my 0 = newWave config mx my.
Proof.
  unfold waveAt, newWave. simpl. rewrite Rmult_0_l, Z.sub_0_r. reflexivity.
Qed.

Lemma waveUpdate_waveAt (config : Config) (mx my : num) (k : nat) :
  (1 <= waveDurationFrames config)%Z ->
  waveUpdate (waveAt config mx my k) = waveAt config mx my (S k).
Proof.
  intros HL. unfold waveUpdate, waveAt. simpl Wave.x. simpl Wave.y.
  simpl Wave.currentRadius. simpl Wave.maxRadius. simpl Wave.life.
  simpl Wave.initialLife. simpl Wave.initialLineWidth.
  assert (HL' : IZR (waveDurationFrames config) <> 0%R).
  { apply not_0_IZR. lia. }
  simpl JS.div. rewrite (Reqb_false _ _ HL'). simpl JS.add.
  f_equal.
  - f_equal. rewrite S_INR. ring.
  - lia.
Qed.

Lemma iter_waveUpdate (config : Config) (mx my : num) (k : nat) :
  (1 <= waveDurationFrames config)%Z ->
  Nat.iter k waveUpdate (newWave config mx my) = waveAt config mx my k.
Proof.
  intros HL. induction k as [| k IH].
  - simpl. symmetry. apply waveAt_0.
  - simpl. rewrite IH. apply waveUpdate_waveAt. exact HL.
Qed.

(** A wave still in the collection after [k] frames is [waveAt k]. *)
Lemma waveAfter_waveAt (config : Config) (alpha : num) (mx my : num) :
  (1 <= waveDurationFrames config)%Z ->
  forall (k j : nat) (w : Wave.t),
    waveAfter config alpha k (waveAt config mx my j) = Some w ->
    w = waveAt config mx my (j + k).
Proof.
  intros HL. induction k as [| k IH]; intros j w Hw; simpl in Hw.
  - injection Hw as <-. rewrite Nat.add_0_r. reflexivity.
  - destruct (waveKept config alpha (waveAt config mx my j)); [| discriminate].
    rewrite waveUpdate_waveAt in Hw by exact HL.
    apply IH in Hw. rewrite Hw. f_equal. lia.
Qed.

(** A callback keeps a wave only while frames remain after it. *)
Lemma waveKept_life (config : Config) (alpha : num) (w : Wave.t) :
  waveKept config alpha w = true -> (1 < Wave.life w)%Z.
Proof.
  rewrite waveKept_unfold. intros H.
  apply andb_prop in H. destruct H as [H _].
  apply andb_prop in H. destruct H as [H _].
  apply Z.ltb_lt in H. simpl in H. lia.
Qed.

Lemma lt_negb_ge (a b : num) :
  JS.isNaN a = false -> JS.isNaN b = false -> (a <? b) = negb (a >=? b).
Proof.
  unfold JS.ge.
  destruct a as [| | r |], b as [| | t |]; simpl; intros Ha Hb;
    try discriminate; try reflexivity.
  Rcases.
Qed.

(** On a wave whose radius is a number, the callback returns [false]
    exactly when the removal condition of the specification holds. *)
Lemma waveKept_removalCondition (config : Config) (alpha : num) (w : Wave.t) :
  JS.isNaN (Wave.currentRadius (waveUpdate w)) = false ->
  JS.isNaN (Wave.maxRadius w * Fin 1.1) = false ->
  waveKept config alpha w = negb (removalCondition config alpha w).
Proof.
  intros Hr Hm. rewrite waveKept_unfold. unfold removalCondition.
  assert (Hm' : JS.isNaN (Wave.maxRadius (waveUpdate w) * Fin 1.1) = false)
    by exact Hm.
  rewrite (lt_negb_ge _ _ Hr Hm').
  rewrite Z.leb_antisym.
  destruct (0 <? Wave.life (waveUpdate w))%Z,
           (Wave.currentRadius (waveUpdate w)
            >=? Wave.maxRadius (waveUpdate w) * Fin 1.1),
           (waveLineWidth (waveUpdate w) <=? Fin 0),
           (waveOpacity config alpha (waveUpdate w) <=? Fin 0);
    reflexivity.
Qed.

Lemma waveAt_removalCondition (config : Config) (alpha : num) (mx my : num)
    (k : nat) :
  (1 <= waveDurationFrames config)%Z ->
  waveKept config alpha (waveAt config mx my k)
  = negb (removalCondition config alpha (waveAt config mx my k)).
Proof.
  intros HL. apply waveKept_removalCondition.
  - rewrite waveUpdate_waveAt by exact HL. reflexivity.
  - reflexivity.
Qed.

(** From [waveAt j] on: the wave is dropped at the first frame at which
    the removal condition holds, and at the latest when its life is spent. *)
Lemma removal_frame (config : Config) (alpha : num) (mx my : num) :
  (1 <= waveDurationFrames config)%Z ->
  forall (fuel j : nat),
    (Z.of_nat j + Z.of_nat fuel = waveDurationFrames config)%Z ->
    (1 <= fuel)%nat ->
    exists n : nat,
      (1 <= n <= fuel)%nat
      /\ waveAfter config alpha n (waveAt config mx my j) = None
      /\ forall i : nat, (i < n)%nat ->
           exists w : Wave.t,
             waveAfter config alpha i (waveAt config mx my j) = Some w
             /\ removalCondition config alpha w = (i =? n - 1)%nat.
Proof.
  intros HL. induction fuel as [| fuel IH]; intros j Hj Hfuel; [lia |].
  destruct (waveKept config alpha (waveAt config mx my j)) eqn:Hkept.
  - pose proof (waveKept_life _ _ _ Hkept) as Hlife. simpl in Hlife.
    destruct (IH (S j) ltac:(lia) ltac:(lia)) as (n & Hn & Hnone & Hbefore).
    exists (S n). split; [lia |]. split.
    + simpl. rewrite Hkept, waveUpdate_waveAt by exact HL. exact Hnone.
    + intros [| i] Hi.
      * exists (waveAt config mx my j). split; [reflexivity |].
        rewrite (waveAt_removalCondition config alpha mx my j HL) in Hkept.
        destruct (removalCondition config alpha (waveAt config mx my j));
          [discriminate |].
        symmetry. apply Nat.eqb_neq. lia.
      * destruct (Hbefore i ltac:(lia)) as (w & Hw & Hcond).
        exists w. split.
        -- simpl. rewrite Hkept, waveUpdate_waveAt by exact HL. exact Hw.
        -- rewrite Hcond. replace (S n - 1)%nat with (S (n - 1)) by lia.
           reflexivity.
  - exists 1%nat. split; [lia |]. split.
    + simpl. rewrite Hkept. reflexivity.
    + intros i Hi. assert (i = 0)%nat as -> by lia.
      exists (waveAt config mx my j). split; [reflexivity |].
      rewrite (waveAt_removalCondition config alpha mx my j HL) in Hkept.
      destruct (removalCondition config alpha (waveAt config mx my j));
        [reflexivity | discriminate].
Qed.

(** Once dropped, a wave stays dropped. *)
Lemma waveAfter_None_later (config : Config) (alpha : num) (n m : nat) :
  forall w : Wave.t,
    waveAfter config alpha n w = None -> (n <= m)%nat ->
    waveAfter config alpha m w = None.
Proof.
  revert m. induction n as [| n IH]; intros m w Hn Hle; simpl in Hn;
    [discriminate |].
  destruct m as [| m]; [lia |]. simpl.
  destruct (waveKept config alpha w); [| reflexivity].
  apply IH; [exact Hn | lia].
Qed.

(** The last callback a wave can survive is the one before its life is
    spent. *)
Lemma waveAfter_expired (config : Config) (alpha : num) (mx my : num) :
  (1 <= waveDurationFrames config)%Z ->
  waveAfter config alpha (Z.to_nat (waveDurationFrames config))
    (newWave config mx my) = None.
Proof.
  intros HL. rewrite <- waveAt_0.
  destruct (removal_frame config alpha mx my HL
              (Z.to_nat (waveDurationFrames config)) 0 ltac:(lia) ltac:(lia))
    as (n & Hn & Hnone & _).
  apply (waveAfter_None_later config alpha n _ _ Hnone). lia.
Qed.

(** [animate] advances the wave collection by one frame. *)
Lemma animate_activeWaves (config : Config) (s : State) :
  waveOnClick config = true ->
  let themeWaveColor := waveColor (themeColors config (currentTheme s)) in
  activeWaves (animate config s)
  = advanceWaves config (rgb themeWaveColor) (alphaOr1 themeWaveColor)
      (activeWaves s).
Proof.
  intros Hon. unfold animate, advanceWaves, getThemeColors. rewrite Hon. simpl.
  destruct (filterWaves config _ _ (activeWaves s)) as [waves d1].
  reflexivity.
Qed.

(** Claim C6.  A wave pushed with a lifetime of at least one frame is out
    of the collection after that many frames, whatever the colour, the
    fade-out flag, the repulsion radius and the line width: the collection
    is then what it would be had the wave never been pushed.  More
    precisely there is a frame [n], no later than [initialLife], at which
    the wave is dropped for good; at every earlier frame it is still in the
    collection, and the callbacks it goes through find the removal
    condition of the specification false, except the [n]-th, which finds it
    true. *)
Theorem wave_removed_within_lifetime (config : Config) (waveBaseRGB : string)
    (waveBaseAlpha : num) (mx my : num) (ws : list Wave.t) :
  (1 <= waveDurationFrames config)%Z ->
  let initialLife := Z.to_nat (waveDurationFrames config) in
  let wave := newWave config mx my in
  advanceWavesN config waveBaseRGB waveBaseAlpha initialLife (ws ++ [wave])
  = advanceWavesN config waveBaseRGB waveBaseAlpha initialLife ws
  /\ exists n : nat,
       (1 <= n <= initialLife)%nat
       /\ (forall m : nat, (n <= m)%nat ->
             advanceWavesN config waveBaseRGB waveBaseAlpha m [wave] = [])
       /\ (forall i : nat, (i < n)%nat ->
             exists w : Wave.t,
               advanceWavesN config waveBaseRGB waveBaseAlpha i [wave] = [w]
               /\ removalCondition config waveBaseAlpha w = (i =? n - 1)%nat).
Proof.
  intros HL initialLife wave. split.
  - rewrite advanceWavesN_app, advanceWavesN_single.
    unfold wave, initialLife. rewrite (waveAfter_expired _ _ _ _ HL).
    simpl. apply app_nil_r.
  - destruct (removal_frame config waveBaseAlpha mx my HL initialLife 0
                ltac:(unfold initialLife; lia) ltac:(unfold initialLife; lia))
      as (n & Hn & Hnone & Hbefore).
    rewrite waveAt_0 in Hnone, Hbefore. fold wave in Hnone, Hbefore.
    exists n. split; [exact Hn |]. split.
    + intros m Hm. rewrite advanceWavesN_single.
      rewrite (waveAfter_None_later config waveBaseAlpha n m wave Hnone Hm).
      reflexivity.
    + intros i Hi. destruct (Hbefore i Hi) as (w & Hw & Hcond).
      exists w. rewrite advanceWavesN_single, Hw. split; [reflexivity | exact Hcond].
Qed.

Lemma wave_removed_within_lifetime_witness :
  advanceWavesN shipped "0, 86, 179" (Fin 0.15) 90
    [newWave shipped (Fin 500) (Fin 200)] = [].
Proof.
  destruct (wave_removed_within_lifetime shipped "0, 86, 179" (Fin 0.15)
              (Fin 500) (Fin 200) []) as [Hgone _].
  - simpl. lia.
  - exact Hgone.
Defined.

(** The growth per frame of a wave with a positive radius to reach and a
    lifetime of at least one frame. *)
Lemma growth_positive (config : Config) :
  (0 < mouseRepelRadius config)%R -> (1 <= waveDurationFrames config)%Z ->
  (0 < mouseRepelRadius config / IZR (waveDurationFrames config))%R.
Proof.
  intros Hm HL. apply Rdiv_lt_0_compat; [exact Hm |].
  apply IZR_lt. lia.
Qed.

Lemma waveAt_grows (config : Config) (mx my : num) (k : nat) :
  (0 < mouseRepelRadius config)%R -> (1 <= waveDurationFrames config)%Z ->
  (Wave.currentRadius (waveAt config mx my k)
   <? Wave.currentRadius (waveUpdate (waveAt config mx my k))) = true.
Proof.
  intros Hm HL. rewrite waveUpdate_waveAt by exact HL.
  unfold waveAt. cbn [Wave.currentRadius]. apply lt_Fin. rewrite S_INR.
  pose proof (growth_positive config Hm HL). lra.
Qed.

(** Over its whole lifetime the radius grows from 0 to [maxRadius]. *)
Lemma waveAt_full (config : Config) (mx my : num) :
  (1 <= waveDurationFrames config)%Z ->
  Wave.currentRadius
    (waveAt config mx my (Z.to_nat (waveDurationFrames config)))
  = Fin (mouseRepelRadius config).
Proof.
  intros HL. unfold waveAt. cbn [Wave.currentRadius]. f_equal.
  rewrite INR_IZR_INZ, Z2Nat.id by lia.
  field. apply not_0_IZR. lia.
Qed.

(** With a positive line width and a positive base alpha nothing but the
    life counter ends a wave: the callback keeps it as long as a frame
    remains after this one. *)
Lemma waveAt_kept (config : Config) (a : R) (mx my : num) (k : nat) :
  (0 < mouseRepelRadius config)%R -> (1 <= waveDurationFrames config)%Z ->
  (0 < waveInitialLineWidth config)%R -> (0 < a)%R ->
  waveKept config (Fin a) (waveAt config mx my k)
  = (Z.of_nat (S k) <? waveDurationFrames config)%Z.
Proof.
  intros Hm HL Hw Ha. rewrite waveKept_unfold, waveUpdate_waveAt by exact HL.
  assert (HL0 : (0 < IZR (waveDurationFrames config))%R)
    by (apply IZR_lt; lia).
  unfold waveAt, waveLineWidth, waveOpacity, waveProgress.
  cbn [Wave.life Wave.currentRadius Wave.maxRadius Wave.initialLife
       Wave.initialLineWidth].
  destruct (Z.of_nat (S k) <? waveDurationFrames config)%Z eqn:Hk.
  - apply Z.ltb_lt in Hk.
    set (L := waveDurationFrames config) in *.
    assert (Hlife : (0 < IZR (L - Z.of_nat (S k)))%R) by (apply IZR_lt; lia).
    assert (Hfrac : (0 < IZR (L - Z.of_nat (S k)) / IZR L)%R)
      by (apply Rdiv_lt_0_compat; assumption).
    assert (Hk' : (INR (S k) < IZR L)%R)
      by (rewrite INR_IZR_INZ; apply IZR_lt; lia).
    pose proof (growth_positive config Hm HL) as Hq. fold L in Hq.
    assert (Hreach : (INR (S k) * (mouseRepelRadius config / IZR L)
                      < mouseRepelRadius config * 1.1)%R).
    { assert (IZR L * (mouseRepelRadius config / IZR L)
              = mouseRepelRadius config)%R by (field; lra).
      nra. }
    replace (0 <? L - Z.of_nat (S k))%Z with true
      by (symmetry; apply Z.ltb_lt; lia).
    cbn [JS.div JS.sub JS.add JS.neg JS.mul JS.lt JS.le andb].
    rewrite (Reqb_false (IZR L) 0) by lra.
    cbn [JS.div JS.sub JS.add JS.neg JS.mul JS.lt JS.le andb].
    rewrite (Rltb_true _ _ Hreach).
    rewrite Rleb_false by nra.
    destruct (waveFadeOut config);
      cbn [JS.div JS.sub JS.add JS.neg JS.mul JS.lt JS.le andb orb negb].
    + rewrite Rleb_false by nra. reflexivity.
    + rewrite Rleb_false by lra. reflexivity.
  - apply Z.ltb_ge in Hk.
    replace (0 <? waveDurationFrames config - Z.of_nat (S k))%Z with false
      by (symmetry; apply Z.ltb_ge; lia).
    reflexivity.
Qed.

Lemma waveAfter_alive (config : Config) (a : R) (mx my : num) :
  (0 < mouseRepelRadius config)%R -> (1 <= waveDurationFrames config)%Z ->
  (0 < waveInitialLineWidth config)%R -> (0 < a)%R ->
  forall k j : nat,
    (Z.of_nat (j + k) < waveDurationFrames config)%Z ->
    waveAfter config (Fin a) k (waveAt config mx my j)
    = Some (waveAt config mx my (j + k)).
Proof.
  intros Hm HL Hw Ha. induction k as [| k IH]; intros j Hjk; simpl.
  - rewrite Nat.add_0_r. reflexivity.
  - rewrite (waveAt_kept config a mx my j Hm HL Hw Ha).
    replace (Z.of_nat (S j) <? waveDurationFrames config)%Z with true
      by (symmetry; apply Z.ltb_lt; lia).
    rewrite waveUpdate_waveAt by exact HL.
    rewrite IH by lia. do 2 f_equal. lia.
Qed.

(** A callback keeps a wave only if its radius is still short of
    [maxRadius * 1.1]; with frames remaining that needs a positive
    [maxRadius]. *)
Lemma waveAt_kept_reach (config : Config) (alpha : num) (mx my : num)
    (k : nat) :
  (1 <= waveDurationFrames config)%Z ->
  waveKept config alpha (waveAt config mx my k) = true ->
  (0 < mouseRepelRadius config)%R.
Proof.
  intros HL Hkept. rewrite waveKept_unfold, waveUpdate_waveAt in Hkept
    by exact HL.
  apply andb_prop in Hkept. destruct Hkept as [Hkept _].
  apply andb_prop in Hkept. destruct Hkept as [Hlife Hreach].
  apply Z.ltb_lt in Hlife.
  unfold waveAt in Hlife, Hreach.
  cbn [Wave.life Wave.currentRadius Wave.maxRadius JS.mul] in Hlife, Hreach.
  apply lt_Fin in Hreach.
  set (L := waveDurationFrames config) in *.
  set (m := mouseRepelRadius config) in *.
  assert (HL0 : (0 < IZR L)%R) by (apply IZR_lt; lia).
  assert (Hk : (INR (S k) < IZR L)%R)
    by (rewrite INR_IZR_INZ; apply IZR_lt; lia).
  assert (Hk0 : (0 < INR (S k))%R) by (apply lt_0_INR; lia).
  assert (Hq : (IZR L * (m / IZR L) = m)%R) by (field; lra).
  destruct (Rlt_dec 0 m) as [Hm | Hm]; [exact Hm | exfalso].
  assert (Hq0 : (m / IZR L <= 0)%R).
  { apply Rnot_lt_le. intros Hpos.
    assert (0 < IZR L * (m / IZR L))%R by (apply Rmult_lt_0_compat; lra).
    lra. }
  assert (Hprod : (0 <= (IZR L - INR (S k)) * - (m / IZR L))%R)
    by (apply Rmult_le_pos; lra).
  lra.
Qed.

(** A tick of the collection runs the filter callback on every wave, in
    order, and keeps the waves, as the callback leaves them, for which it
    returns [true]. *)
Lemma advanceWaves_callback (config : Config) (rgb : string) (alpha : num)
    (ws : list Wave.t) :
  advanceWaves config rgb alpha ws
  = map (fun w => fst (fst (waveCallback config rgb alpha w)))
        (filter (waveKept config alpha) ws).
Proof.
  unfold advanceWaves. induction ws as [| w rest IH]; [reflexivity |].
  simpl.
  destruct (waveCallback_update config rgb alpha w) as [Hu Hk].
  rewrite <- Hk.
  destruct (waveCallback config rgb alpha w) as [[w' keep] d] eqn:E.
  destruct (filterWaves config rgb alpha rest) as [ws' ds].
  simpl in *. destruct keep; simpl; rewrite ?E; simpl; rewrite IH;
    reflexivity.
Qed.

Lemma iter_callback (config : Config) (rgb : string) (alpha : num)
    (n : nat) (w : Wave.t) :
  Nat.iter n (fun w => fst (fst (waveCallback config rgb alpha w))) w
  = Nat.iter n waveUpdate w.
Proof.
  induction n as [| n IH]; [reflexivity |]. simpl. rewrite IH.
  apply waveCallback_update.
Qed.

(** Claim C5.  A tick of the wave collection, [advanceWaves] (and so the
    wave filter of a frame of [animate]), runs the filter callback on every
    wave and keeps those it returns [true] for, as the callback leaves
    them; the callback adds exactly [maxRadius / initialLife] to
    [currentRadius].  For the wave of a press, with a lifetime of at least
    one frame: whatever the number of ticks it has been in the collection
    for, a tick that keeps it makes its radius strictly larger, and with a
    positive [maxRadius] so does the tick that drops it; it starts at
    radius 0, and [initialLife] callbacks take the radius to [maxRadius]
    exactly (arithmetic being exact in this model).  When moreover
    [maxRadius], the line width and the base alpha are positive, the wave
    does go through all of them: it is in the collection after
    [initialLife - 1] ticks, and the next tick drops it, its callback
    leaving the radius at [maxRadius]. *)
Theorem wave_growth (config : Config) (waveBaseRGB : string)
    (waveBaseAlpha : num) (mx my : num) :
  (1 <= waveDurationFrames config)%Z ->
  let wave := newWave config mx my in
  let initialLife := Z.to_nat (waveDurationFrames config) in
  let tick := advanceWaves config waveBaseRGB waveBaseAlpha in
  let ticks := advanceWavesN config waveBaseRGB waveBaseAlpha in
  let after :=
    fun w => fst (fst (waveCallback config waveBaseRGB waveBaseAlpha w)) in
  (forall ws : list Wave.t,
     tick ws = map after (filter (waveKept config waveBaseAlpha) ws))
  /\ (forall s : State,
        waveOnClick config = true ->
        let themeWaveColor := waveColor (themeColors config (currentTheme s)) in
        activeWaves (animate config s)
        = map (fun w =>
                 fst (fst (waveCallback config (rgb themeWaveColor)
                             (alphaOr1 themeWaveColor) w)))
              (filter (waveKept config (alphaOr1 themeWaveColor))
                 (activeWaves s)))
  /\ (forall w : Wave.t,
        Wave.currentRadius (after w)
        = Wave.currentRadius w
          + Wave.maxRadius w / Fin (IZR (Wave.initialLife w)))
  /\ (forall (n : nat) (w : Wave.t),
        In w (ticks n [wave]) ->
        (forall w' : Wave.t,
           In w' (tick [w]) ->
           w' = after w
           /\ (Wave.currentRadius w <? Wave.currentRadius w') = true)
        /\ ((0 < mouseRepelRadius config)%R ->
            (Wave.currentRadius w <? Wave.currentRadius (after w)) = true))
  /\ Wave.currentRadius wave = Fin 0
  /\ Wave.currentRadius (Nat.iter initialLife after wave)
     = Wave.maxRadius wave
  /\ (forall a : R,
        waveBaseAlpha = Fin a -> (0 < a)%R ->
        (0 < waveInitialLineWidth config)%R ->
        (0 < mouseRepelRadius config)%R ->
        exists w : Wave.t,
          ticks (initialLife - 1)%nat [wave] = [w]
          /\ ticks initialLife [wave] = []
          /\ Wave.currentRadius (after w) = Wave.maxRadius wave).
Proof.
  intros HL wave initialLife tick ticks after.
  assert (Hafter : forall w, after w = waveUpdate w)
    by (intros w; apply waveCallback_update).
  assert (Htick : forall ws,
            tick ws = map after (filter (waveKept config waveBaseAlpha) ws))
    by (intros ws; apply advanceWaves_callback).
  split; [exact Htick |].
  split.
  { intros s Hon themeWaveColor. rewrite animate_activeWaves by exact Hon.
    apply advanceWaves_callback. }
  split; [intros w; rewrite Hafter; reflexivity |].
  split; [| split; [reflexivity | split]].
  - intros n w Hin. unfold ticks in Hin.
    rewrite advanceWavesN_single in Hin.
    destruct (waveAfter config waveBaseAlpha n wave) as [w0 |] eqn:Hw;
      [| destruct Hin].
    destruct Hin as [<- | []].
    unfold wave in Hw. rewrite <- waveAt_0 in Hw.
    apply (waveAfter_waveAt config waveBaseAlpha mx my HL) in Hw.
    simpl Nat.add in Hw. subst w0. split.
    + intros w' Hin'. rewrite Htick in Hin'. cbn [filter] in Hin'.
      destruct (waveKept config waveBaseAlpha (waveAt config mx my n))
        eqn:Hkept; [| destruct Hin'].
      destruct Hin' as [<- | []]. split; [reflexivity |].
      rewrite Hafter. apply waveAt_grows; [| exact HL].
      exact (waveAt_kept_reach config waveBaseAlpha mx my _ HL Hkept).
    + intros Hm. rewrite Hafter. apply waveAt_grows; assumption.
  - unfold after. rewrite iter_callback. unfold wave.
    rewrite (iter_waveUpdate config mx my initialLife HL).
    apply waveAt_full. exact HL.
  - intros a -> Ha Hw Hm.
    exists (waveAt config mx my (initialLife - 1)).
    assert (Hlast : S (initialLife - 1) = initialLife)
      by (unfold initialLife; lia).
    assert (Hone : ticks (initialLife - 1)%nat [wave]
                   = [waveAt config mx my (initialLife - 1)]).
    { unfold ticks. rewrite advanceWavesN_single. unfold wave.
      rewrite <- waveAt_0.
      rewrite (waveAfter_alive config a mx my Hm HL Hw Ha)
        by (unfold initialLife; lia).
      reflexivity. }
    split; [exact Hone |]. split.
    + assert (Hstep : ticks (S (initialLife - 1)) [wave]
                      = tick (ticks (initialLife - 1)%nat [wave]))
        by reflexivity.
      rewrite Hlast in Hstep. rewrite Hstep, Hone, Htick. cbn [filter].
      rewrite (waveAt_kept config a mx my _ Hm HL Hw Ha), Hlast.
      replace (Z.of_nat initialLife <? waveDurationFrames config)%Z
        with false by (symmetry; apply Z.ltb_ge; unfold initialLife; lia).
      reflexivity.
    + rewrite Hafter, waveUpdate_waveAt by exact HL. rewrite Hlast.
      apply waveAt_full. exact HL.
Qed.

Lemma wave_growth_witness :
  exists w : Wave.t,
    advanceWavesN shipped "0, 86, 179" (Fin 0.15) 89
      [newWave shipped (Fin 500) (Fin 200)] = [w]
    /\ advanceWavesN shipped "0, 86, 179" (Fin 0.15) 90
         [newWave shipped (Fin 500) (Fin 200)] = []
    /\ Wave.currentRadius
         (fst (fst (waveCallback shipped "0, 86, 179" (Fin 0.15) w)))
       = Fin 150.
Proof.
  destruct (wave_growth shipped "0, 86, 179" (Fin 0.15) (Fin 500) (Fin 200))
    as (_ & _ & _ & _ & _ & _ & Hfull).
  - simpl. lia.
  - apply (Hfull 0.15%R); [reflexivity | lra | simpl; lra | simpl; lra].
Defined.

(* ================================================================= *)
(** ** Lines *)

Lemma max_Fin (a b : R) : JS.max (Fin a) (Fin b) = Fin (Rmax a b).
Proof.
  unfold JS.max, Rmax. simpl. unfold JS.Rltb.
  destruct (Rlt_dec a b), (Rle_dec a b); try reflexivity; try lra.
  f_equal. lra.
Qed.

Lemma min_Fin (a b : R) : JS.min (Fin a) (Fin b) = Fin (Rmin a b).
Proof.
  unfold JS.min, Rmin. simpl. unfold JS.Rltb.
  destruct (Rlt_dec b a), (Rle_dec a b); try reflexivity; lra.
Qed.

Lemma alphaOr1_baseAlpha (c : Color) : alphaOr1 c = Fin (baseAlpha c).
Proof. unfold alphaOr1, baseAlpha. destruct (alpha c); reflexivity. Qed.

(** A distance that is a number is not negative. *)
Lemma pairDistance_nonneg (p q : Particle.t) (d : R) :
  pairDistance p q = Fin d -> (0 <= d)%R.
Proof.
  unfold pairDistance.
  destruct (_ + _) as [| | r |]; simpl; try discriminate.
  destruct (JS.Rltb r 0); [discriminate |].
  intros H. injection H as <-. apply sqrt_pos.
Qed.

(** Claim C9.  For a pair of particles at distance [d]: when [d] is
    exactly [maxDistance] no line is drawn, the test on the distance being
    strict, and the opacity formula gives exactly 0 (for a [maxDistance]
    other than 0, where the formula is [0 / 0]); when [d] is smaller, one
    line is drawn between the two particles, with opacity
    [(1 - d / maxDistance) * alpha] or 0 if that is negative, [alpha] being
    the alpha of the palette's line colour. *)
Theorem line_opacity (config : Config) (colors : Palette)
    (p q : Particle.t) (d : R) :
  pairDistance p q = Fin d ->
  (d = maxDistance config ->
     pairLine config colors p q = []
     /\ (maxDistance config <> 0%R ->
         pairOpacity config colors p q = Fin 0))
  /\ ((d < maxDistance config)%R ->
      pairLine config colors p q
      = [strokeLine (Particle.x p) (Particle.y p)
           (Particle.x q) (Particle.y q)
           (rgb (lineColor colors))
           (Fin (Rmax 0 ((1 - d / maxDistance config)
                         * baseAlpha (lineColor colors))))
           (Fin (lineWidth config))]).
Proof.
  intros Hd. pose proof (pairDistance_nonneg p q d Hd) as Hd0. split.
  - intros ->. unfold pairOpacity, pairLine. rewrite Hd, alphaOr1_baseAlpha.
    simpl. rewrite Rltb_false by lra. split; [reflexivity |].
    intros HD. rewrite (Reqb_false (maxDistance config) 0) by exact HD.
    simpl. f_equal. field. exact HD.
  - intros Hlt. unfold pairLine, pairOpacity.
    rewrite Hd, alphaOr1_baseAlpha. simpl.
    rewrite (Rltb_true _ _ Hlt).
    rewrite (Reqb_false (maxDistance config) 0) by lra.
    simpl. rewrite max_Fin. reflexivity.
Qed.

Lemma line_opacity_witness :
  pairDistance leftEnd rightEnd = Fin 250
  /\ pairLine shipped (shippedColors light) leftEnd rightEnd = []
  /\ pairOpacity shipped (shippedColors light) leftEnd rightEnd = Fin 0.
Proof.
  assert (Hd : pairDistance leftEnd rightEnd = Fin 250).
  { unfold pairDistance, leftEnd, rightEnd. distance_is 250%R. reflexivity. }
  split; [exact Hd |].
  destruct (line_opacity shipped (shippedColors light) leftEnd rightEnd 250 Hd)
    as [Hat _].
  destruct (Hat eq_refl) as [Hline Hopacity].
  split; [exact Hline |]. apply Hopacity. simpl. lra.
Defined.

(* ================================================================= *)
(** ** The absent pointer *)

Lemma repel_absent (config : Config) (m : Mouse.t) (down : bool)
    (p : Particle.t) :
  absent m -> repel config m down p = p.
Proof.
  intros [Hx | Hy]; unfold repel.
  - rewrite Hx. destruct down; reflexivity.
  - rewrite Hy. destruct down, (Mouse.x m); reflexivity.
Qed.

Lemma repel_released (config : Config) (m : Mouse.t) (p : Particle.t) :
  repel config m false p = p.
Proof. reflexivity. Qed.

(** With the pointer at the origin and pressed, [nearOrigin] is pushed:
    the origin is a position like any other. *)
Lemma pushed_from_origin :
  Particle.vx (repel shipped (Mouse.mk (Some (Fin 0)) (Some (Fin 0))) true
                 nearOrigin) = Fin 0.12.
Proof.
  rewrite (repel_force shipped _ nearOrigin 30 40 0 0); try reflexivity.
  - simpl.
    replace ((30 - 0) * (30 - 0) + (40 - 0) * (40 - 0))%R with (50 * 50)%R
      by lra.
    rewrite sqrt_square by lra.
    rewrite min_Fin, max_Fin. f_equal.
    rewrite Rmin_right by lra. rewrite Rmax_right by lra. lra.
  - simpl.
    replace ((30 - 0) * (30 - 0) + (40 - 0) * (40 - 0))%R with (50 * 50)%R
      by lra.
    rewrite sqrt_square by lra. lra.
Qed.

(** [connectParticles] on an array of two. *)
Lemma connectFrom_two (config : Config) (colors : Palette) (m : Mouse.t)
    (p q : Particle.t) :
  connectFrom config colors m [p; q]
  = pairLine config colors p q
    ++ mouseLine config colors m p ++ mouseLine config colors m q.
Proof. simpl. rewrite !app_nil_r. reflexivity. Qed.

(** With the pointer absent [connectParticles] draws the lines between
    particles and nothing else. *)
Lemma connectFrom_absent (config : Config) (colors : Palette) (m : Mouse.t)
    (ps : list Particle.t) :
  absent m -> connectFrom config colors m ps = pairLines config colors ps.
Proof.
  intros Habs.
  assert (Hline : forall p, mouseLine config colors m p = []).
  { intros p. unfold mouseLine.
    destruct Habs as [-> | Hy]; [reflexivity |].
    rewrite Hy. destruct (Mouse.x m); reflexivity. }
  induction ps as [| p rest IH]; [reflexivity |].
  simpl. rewrite Hline, IH. reflexivity.
Qed.

(** The frame that follows a [mouseout]. *)
Lemma animate_after_mouseout (config : Config) (s : State) :
  particles (animate config (mouseout s))
  = map (Plain.update (canvas_width s) (canvas_height s)) (particles s).
Proof.
  unfold animate.
  destruct (if waveOnClick config then _ else _) as [waves d1]. simpl.
  apply map_ext. intros p. reflexivity.
Qed.

(** Claim C8.  While the pointer is absent, [update] is the [update] of
    [particles.js], movement and boundary check only, whether or not the
    button is held, and [connectParticles] draws the lines between
    particles and none to the pointer.  [mouseout] makes the pointer absent
    and clears [isMouseDown], so the next frame, if the animation is
    running, moves every particle that way.  Absent is not the origin: a
    particle near the origin keeps its velocity through the force step with
    the pointer absent, and is pushed with the pointer pressed at (0, 0). *)
Theorem absent_pointer (config : Config) (random : nat -> R)
    (popupElement : bool) (m : Mouse.t) (s : State) :
  absent m ->
  (forall (W H : R) (down : bool) (p : Particle.t),
     update config W H m down p = Plain.update W H p)
  /\ (forall (colors : Palette) (ps : list Particle.t),
        connectFrom config colors m ps = pairLines config colors ps)
  /\ absent (mouse (mouseout s))
  /\ isMouseDown (mouseout s) = false
  /\ particles (animate config (mouseout s))
     = map (Plain.update (canvas_width s) (canvas_height s)) (particles s)
  /\ (truthy (animationFrameId s) = true ->
      run config random popupElement [MouseLeft; Frame] s
      = Some (animate config (mouseout s)))
  /\ Particle.vx (repel shipped m true nearOrigin) = Fin 0.1
  /\ Particle.vx (repel shipped (Mouse.mk (Some (Fin 0)) (Some (Fin 0))) true
                    nearOrigin) = Fin 0.12.
Proof.
  intros Habs.
  split; [| split; [| split; [| split; [| split; [| split; [| split]]]]]].
  - intros W H down p. unfold update, Plain.update.
    rewrite (repel_absent config m down p Habs). reflexivity.
  - intros colors ps. apply connectFrom_absent. exact Habs.
  - left. reflexivity.
  - reflexivity.
  - apply animate_after_mouseout.
  - intros Hrun. simpl. rewrite Hrun. reflexivity.
  - rewrite (repel_absent shipped m true nearOrigin Habs). reflexivity.
  - exact pushed_from_origin.
Qed.

Lemma absent_pointer_witness :
  update shipped 800 600 (Mouse.mk None None) true nearOrigin
  = Plain.update 800 600 nearOrigin.
Proof.
  destruct (absent_pointer shipped (fun _ => 0%R) true (Mouse.mk None None)
              blank) as [Hupdate _].
  - left. reflexivity.
  - apply Hupdate.
Defined.

(* ================================================================= *)
(** ** The popup and its timer *)

Lemma remove_self (id : nat) : remove Nat.eq_dec id [id] = [].
Proof.
  cbn [remove]. destruct (Nat.eq_dec id id); [reflexivity | contradiction].
Qed.

Lemma clearTimeout_self (id : nat) : clearTimeout (Some id) [id] = [].
Proof. apply remove_self. Qed.

Lemma showEasterEggPopup_consistent (popupElement : bool) (s : State) :
  popupConsistent popupElement s ->
  popupConsistent popupElement (showEasterEggPopup popupElement s).
Proof.
  unfold popupConsistent, showEasterEggPopup. intros H.
  destruct popupElement; [| exact H].
  cbn [negb]. destruct (popupTimeoutId s) as [id |].
  - destruct H as (_ & Hp & Hv & Hid). rewrite Hp.
    destruct id as [| id]; [lia |]. cbn [truthy].
    rewrite clearTimeout_self. unfold freshHandle. simpl.
    repeat split; lia.
  - destruct H as (Hp & Hv). rewrite Hp. unfold freshHandle. simpl.
    repeat split; lia.
Qed.

Lemma hideEasterEggPopup_consistent (popupElement : bool) (s : State) :
  popupConsistent popupElement s ->
  popupConsistent popupElement (hideEasterEggPopup popupElement s).
Proof.
  unfold popupConsistent, hideEasterEggPopup. intros H.
  destruct popupElement; [| exact H].
  cbn [negb]. destruct (popupTimeoutId s) as [id |].
  - destruct H as (_ & Hp & Hv & Hid). rewrite Hp.
    destruct id as [| id]; [lia |]. cbn [truthy].
    rewrite clearTimeout_self. simpl. split; reflexivity.
  - destruct H as (Hp & Hv). simpl. rewrite Hp. split; reflexivity.
Qed.

(** Functions that leave the popup alone and never take handles back. *)
Lemma popupConsistent_frame (popupElement : bool) (s s' : State) :
  popupTimeoutId s' = popupTimeoutId s ->
  pendingTimeouts s' = pendingTimeouts s ->
  popupVisible s' = popupVisible s ->
  (nextHandle s <= nextHandle s')%nat ->
  popupConsistent popupElement s -> popupConsistent popupElement s'.
Proof.
  unfold popupConsistent. intros -> -> -> Hn H.
  destruct (popupTimeoutId s); [| exact H].
  destruct H as (He & Hp & Hv & Hid). repeat split; try assumption; lia.
Qed.

Lemma animate_popup (config : Config) (s : State) :
  popupTimeoutId (animate config s) = popupTimeoutId s
  /\ pendingTimeouts (animate config s) = pendingTimeouts s
  /\ popupVisible (animate config s) = popupVisible s
  /\ (nextHandle s <= nextHandle (animate config s))%nat.
Proof.
  unfold animate.
  destruct (if waveOnClick config then _ else _) as [waves d1]. simpl.
  unfold freshHandle. simpl. repeat split; lia.
Qed.

Lemma scanForEgg_consistent (popupElement : bool) (mx my : num)
    (ps : list Particle.t) (s : State) :
  popupConsistent popupElement s ->
  popupConsistent popupElement (fst (scanForEgg popupElement mx my ps s)).
Proof.
  intros H. induction ps as [| q rest IH]; simpl; [exact H |].
  destruct (hitTest mx my q); [| exact IH].
  destruct (Particle.isEasterEgg q); [| exact IH].
  simpl.
  apply (popupConsistent_frame popupElement
           (showEasterEggPopup popupElement s)); try reflexivity.
  apply showEasterEggPopup_consistent. exact H.
Qed.

(** The position the listener records, and what else the scan leaves. *)
Lemma scanForEgg_frame (popupElement : bool) (mx my : num)
    (ps : list Particle.t) (s : State) :
  let s' := fst (scanForEgg popupElement mx my ps s) in
  mouse s' = mouse s /\ particles s' = particles s
  /\ activeWaves s' = activeWaves s /\ isMouseDown s' = isMouseDown s
  /\ canvas_width s' = canvas_width s /\ canvas_height s' = canvas_height s
  /\ animationFrameId s' = animationFrameId s
  /\ currentTheme s' = currentTheme s.
Proof.
  induction ps as [| q rest IH]; simpl; [tauto |].
  destruct (hitTest mx my q); [| exact IH].
  destruct (Particle.isEasterEgg q); [| exact IH].
  unfold showEasterEggPopup. destruct popupElement; simpl; tauto.
Qed.

Lemma mousedown_consistent (config : Config) (popupElement : bool)
    (event : MouseEvent) (s : State) :
  popupConsistent popupElement s ->
  popupConsistent popupElement (mousedown config popupElement event s).
Proof.
  intros H. unfold mousedown. cbv zeta.
  set (s1 := updateMousePosition event (set_isMouseDown true s)).
  assert (H1 : popupConsistent popupElement s1) by exact H.
  assert (Hm : mouse s1 = Mouse.mk (Some (pressX event s))
                                   (Some (pressY event s))) by reflexivity.
  rewrite Hm. cbn [Mouse.x Mouse.y].
  destruct (enableEasterEgg config).
  - pose proof (scanForEgg_consistent popupElement
                  (pressX event s) (pressY event s) (particles s1) s1 H1) as H2.
    destruct (scanForEgg popupElement (pressX event s) (pressY event s)
                (particles s1) s1) as [s2 clicked].
    simpl in H2.
    destruct (waveOnClick config && negb clicked), (Mouse.x (mouse s2)),
             (Mouse.y (mouse s2)); exact H2.
  - rewrite Hm. cbn [Mouse.x Mouse.y negb andb].
    destruct (waveOnClick config); exact H1.
Qed.

(* ================================================================= *)
(** ** More on init *)

(** The index clamp, computed on integers. *)
Lemma clamped_index_value (n : nat) (z : Z) :
  (0 < n)%nat ->
  toIndex (JS.max (Fin 0) (JS.min (Fin (INR n) - Fin 1) (Fin (IZR z))))
  = Some (Z.to_nat (Z.max 0 (Z.min (Z.of_nat n - 1) z))).
Proof.
  intros Hn.
  assert (Hidx : forall k : Z, (0 <= k)%Z ->
            toIndex (Fin (IZR k)) = Some (Z.to_nat k)).
  { intros k Hk. unfold toIndex.
    rewrite ZfloorZ. rewrite Rleb_true by (apply IZR_le; lia).
    rewrite Reqb_true by reflexivity. reflexivity. }
  simpl. replace (INR n + - (1))%R with (IZR (Z.of_nat n - 1))
    by (rewrite minus_IZR, <- INR_IZR_INZ; lra).
  unfold JS.max, JS.min. simpl.
  destruct (Rlt_dec (IZR z) (IZR (Z.of_nat n - 1))) as [H1 | H1];
    [rewrite (Rltb_true _ _ H1) | rewrite Rltb_false by lra].
  - apply lt_IZR in H1.
    destruct (Rlt_dec 0 (IZR z)) as [H2 | H2];
      [rewrite (Rltb_true _ _ H2) | rewrite Rltb_false by lra].
    + apply lt_IZR in H2.
      replace (Z.max 0 (Z.min (Z.of_nat n - 1) z)) with z by lia.
      apply Hidx. lia.
    + apply Rnot_lt_le in H2. apply le_IZR in H2.
      replace (Z.max 0 (Z.min (Z.of_nat n - 1) z)) with 0%Z by lia.
      apply (Hidx 0%Z). lia.
  - apply Rnot_lt_le in H1. apply le_IZR in H1.
    destruct (Rlt_dec 0 (IZR (Z.of_nat n - 1))) as [H2 | H2];
      [rewrite (Rltb_true _ _ H2) | rewrite Rltb_false by lra].
    + replace (Z.max 0 (Z.min (Z.of_nat n - 1) z)) with (Z.of_nat n - 1)%Z
        by lia.
      apply Hidx. lia.
    + apply Rnot_lt_le in H2. apply le_IZR in H2.
      replace (Z.max 0 (Z.min (Z.of_nat n - 1) z)) with 0%Z by lia.
      apply (Hidx 0%Z). lia.
Qed.

(** Two states with the same fields are the same state. *)
Lemma State_ext (s1 s2 : State) :
  easterEggParticleFound s1 = easterEggParticleFound s2 ->
  popupTimeoutId s1 = popupTimeoutId s2 ->
  particles s1 = particles s2 ->
  activeWaves s1 = activeWaves s2 ->
  animationFrameId s1 = animationFrameId s2 ->
  currentTheme s1 = currentTheme s2 ->
  mouse s1 = mouse s2 ->
  isMouseDown s1 = isMouseDown s2 ->
  canvas_width s1 = canvas_width s2 ->
  canvas_height s1 = canvas_height s2 ->
  popupVisible s1 = popupVisible s2 ->
  pendingTimeouts s1 = pendingTimeouts s2 ->
  nextHandle s1 = nextHandle s2 ->
  randomCalls s1 = randomCalls s2 ->
  popupCalls s1 = popupCalls s2 ->
  drawn s1 = drawn s2 ->
  s1 = s2.
Proof.
  destruct s1, s2. simpl. intros. subst. reflexivity.
Qed.

(** [init], step by step: the particles are drawn afresh, one is marked
    when the egg is enabled and there is a particle to mark, and the
    animation is started on the result. *)
Lemma init_result (config : Config) (random : nat -> R)
    (innerWidth innerHeight : R) (s : State) :
  let n := particleCount config in
  let ps := makeParticles config random innerWidth innerHeight n
              (randomCalls s) in
  init config random innerWidth innerHeight s
  = if enableEasterEgg config && (0 <? n)%nat then
      match markEgg ps (eggIndex config random s) with
      | Some ps' =>
          Some (startAnimation config
                  (initialised innerWidth innerHeight ps'
                     (5 * n + if easterEggAlwaysFirst config then 0 else 1) s))
      | None => None
      end
    else
      Some (startAnimation config
              (initialised innerWidth innerHeight ps (5 * n) s)).
Proof.
  intros n ps. unfold init. cbv zeta.
  cbn [particles set_particles set_randomCalls set_easterEggParticleFound
       set_canvas randomCalls].
  fold n. fold ps.
  assert (Hlen : List.length ps = n) by apply makeParticles_length.
  rewrite Hlen.
  destruct (enableEasterEgg config && (0 <? n)%nat) eqn:E;
    [| reflexivity].
  apply andb_prop in E. destruct E as [_ Hpos]. apply Nat.ltb_lt in Hpos.
  unfold eggIndex. fold n.
  destruct (easterEggAlwaysFirst config); cbn [negb].
  - rewrite (clamped_index_value n 0 Hpos).
    replace (Z.to_nat (Z.max 0 (Z.min (Z.of_nat n - 1) 0))) with 0%nat by lia.
    cbn [particles set_particles set_randomCalls].
    destruct (markEgg ps 0); [| reflexivity].
    do 2 f_equal. apply State_ext; try reflexivity. simpl. lia.
  - cbn [JS.floor JS.mul].
    rewrite (clamped_index_value n _ Hpos).
    cbn [particles set_particles set_randomCalls].
    destruct (markEgg ps _); [| reflexivity].
    do 2 f_equal. apply State_ext; try reflexivity. simpl. lia.
Qed.

Lemma startAnimation_popup (config : Config) (s : State) :
  popupTimeoutId (startAnimation config s) = popupTimeoutId s
  /\ pendingTimeouts (startAnimation config s) = pendingTimeouts s
  /\ popupVisible (startAnimation config s) = popupVisible s
  /\ (nextHandle s <= nextHandle (startAnimation config s))%nat.
Proof.
  unfold startAnimation.
  destruct (negb (truthy (animationFrameId s))).
  - apply animate_popup.
  - repeat split. lia.
Qed.

(** [init] leaves the popup and its timer alone. *)
Lemma init_popup (config : Config) (random : nat -> R) (W H : R)
    (s s' : State) :
  init config random W H s = Some s' ->
  popupTimeoutId s' = popupTimeoutId s
  /\ pendingTimeouts s' = pendingTimeouts s
  /\ popupVisible s' = popupVisible s
  /\ (nextHandle s <= nextHandle s')%nat.
Proof.
  rewrite init_result. cbv zeta. intros Hinit.
  assert (Hstart : exists ps k,
            s' = startAnimation config (initialised W H ps k s)).
  { destruct (enableEasterEgg config && _).
    - destruct (markEgg _ _) as [ps' |]; [| discriminate].
      injection Hinit as <-. eauto.
    - injection Hinit as <-. eauto. }
  destruct Hstart as (ps & k & ->).
  destruct (startAnimation_popup config (initialised W H ps k s))
    as (-> & -> & -> & Hn).
  repeat split. exact Hn.
Qed.

Lemma stopAnimation_popup (s : State) :
  popupTimeoutId (stopAnimation s) = popupTimeoutId s
  /\ pendingTimeouts (stopAnimation s) = pendingTimeouts s
  /\ popupVisible (stopAnimation s) = popupVisible s
  /\ nextHandle (stopAnimation s) = nextHandle s.
Proof.
  unfold stopAnimation. destruct (truthy (animationFrameId s));
    repeat split.
Qed.


(** Every listener keeps the popup and its timer in agreement. *)
Lemma handle_consistent (config : Config) (random : nat -> R)
    (popupElement : bool) (e : Event) (s s' : State) :
  popupConsistent popupElement s ->
  handle config random popupElement e s = Some s' ->
  popupConsistent popupElement s'.
Proof.
  intros H He. destruct e; simpl in He.
  - destruct (truthy (animationFrameId s)); injection He as <-; [| exact H].
    destruct (animate_popup config s) as (H1 & H2 & H3 & H4).
    apply (popupConsistent_frame popupElement s); assumption.
  - injection He as <-. exact H.
  - injection He as <-. exact H.
  - injection He as <-. apply mousedown_consistent. exact H.
  - injection He as <-. exact H.
  - unfold handleResize in He.
    destruct (init_popup _ _ _ _ _ _ He) as (H1 & H2 & H3 & H4).
    destruct (stopAnimation_popup s) as (G1 & G2 & G3 & G4).
    apply (popupConsistent_frame popupElement s); try congruence; lia.
  - injection He as <-. exact H.
  - destruct (existsb (Nat.eqb id) (pendingTimeouts s)) eqn:E;
      injection He as <-; [| exact H].
    unfold popupConsistent in H.
    destruct (popupTimeoutId s) as [cur |] eqn:Ecur.
    + destruct H as (-> & Hp & Hv & Hid). rewrite Hp in *. simpl in E.
      rewrite orb_false_r in E. apply Nat.eqb_eq in E. subst id.
      unfold hideEasterEggPopup, popupConsistent. cbn [negb].
      rewrite remove_self.
      destruct cur as [| cur]; [lia |]. cbn [truthy].
      simpl. split; reflexivity.
    + destruct H as (Hp & Hv). rewrite Hp in E. discriminate.
  - injection He as <-. apply hideEasterEggPopup_consistent. exact H.
Qed.

(** Property X1.  However the session goes, the popup and its hide timer
    stay in agreement: at most one hide timer is pending, it is the one
    [popupTimeoutId] names, and the popup is visible exactly while a timer
    is pending. *)
Theorem popup_timer_invariant (config : Config) (random : nat -> R)
    (popupElement : bool) (es : list Event) (s s' : State) :
  popupConsistent popupElement s ->
  run config random popupElement es s = Some s' ->
  popupConsistent popupElement s'
  /\ (List.length (pendingTimeouts s') <= 1)%nat
  /\ (popupVisible s' = true <-> pendingTimeouts s' <> []).
Proof.
  intros H Hrun.
  assert (H' : popupConsistent popupElement s').
  { revert s H Hrun. induction es as [| e rest IH]; intros s H Hrun;
      simpl in Hrun.
    - injection Hrun as <-. exact H.
    - destruct (handle config random popupElement e s) as [s1 |] eqn:He;
        [| discriminate].
      apply (IH s1); [| exact Hrun].
      exact (handle_consistent _ _ _ _ _ _ H He). }
  split; [exact H' |].
  unfold popupConsistent in H'.
  destruct (popupTimeoutId s') as [id |].
  - destruct H' as (_ & -> & -> & _). simpl. split; [lia |].
    split; [discriminate | reflexivity].
  - destruct H' as (-> & ->). simpl. split; [lia |].
    split; [discriminate | congruence].
Qed.

Lemma popup_timer_invariant_witness :
  popupConsistent true
    (mousedown shipped true (pressAt 300 200)
       (mousedown shipped true (pressAt 300 200) scene)).
Proof.
  apply (popup_timer_invariant shipped (fun _ => 0%R) true
           [MousePressed (pressAt 300 200); MousePressed (pressAt 300 200)]
           scene).
  - simpl. split; reflexivity.
  - reflexivity.
Defined.

(** Property X2.  While the popup shows, closing it by hand and the firing
    of its timer both hide it, leave no timer pending and reset
    [popupTimeoutId]; a timer with any other handle is not pending and its
    firing changes nothing. *)
Theorem popup_hides (config : Config) (random : nat -> R) (s : State)
    (id : nat) :
  popupConsistent true s -> popupTimeoutId s = Some id ->
  (forall e : Event, e = CloseClicked \/ e = TimeoutFires id ->
     exists s' : State,
       handle config random true e s = Some s'
       /\ popupVisible s' = false /\ pendingTimeouts s' = []
       /\ popupTimeoutId s' = None)
  /\ (forall other : nat, other <> id ->
        handle config random true (TimeoutFires other) s = Some s).
Proof.
  unfold popupConsistent. intros H Hid. rewrite Hid in H.
  destruct H as (_ & Hp & Hv & Hrange).
  destruct id as [| id]; [lia |]. split.
  - intros e [-> | ->]; cbn [handle].
    + eexists. split; [reflexivity |].
      unfold hideEasterEggPopup. cbn [negb]. rewrite Hid. cbn [truthy].
      cbn [popupVisible pendingTimeouts popupTimeoutId set_popup].
      rewrite Hp, clearTimeout_self. tauto.
    + rewrite Hp. cbn [existsb]. rewrite Nat.eqb_refl. cbn [orb].
      eexists. split; [reflexivity |].
      unfold hideEasterEggPopup. cbn [negb].
      cbn [popupVisible pendingTimeouts popupTimeoutId set_popup].
      rewrite Hid. cbn [truthy].
      cbn [popupVisible pendingTimeouts popupTimeoutId set_popup].
      rewrite remove_self. cbn [clearTimeout remove]. tauto.
  - intros other Hother. cbn [handle]. rewrite Hp. cbn [existsb orb].
    destruct (Nat.eqb other (S id)) eqn:E; [| reflexivity].
    apply Nat.eqb_eq in E. contradiction.
Qed.

Lemma popup_hides_witness :
  handle shipped (fun _ => 0%R) true (TimeoutFires 7)
    (showEasterEggPopup true blank)
  = Some (showEasterEggPopup true blank).
Proof.
  destruct (popup_hides shipped (fun _ => 0%R)
              (showEasterEggPopup true blank) 1) as [_ Hother].
  - unfold popupConsistent, showEasterEggPopup, freshHandle. simpl.
    repeat split; lia.
  - reflexivity.
  - apply Hother. lia.
Defined.

(* ================================================================= *)
(** ** The animation loop *)

Lemma animate_running (config : Config) (s : State) :
  truthy (animationFrameId (animate config s)) = true.
Proof.
  unfold animate.
  destruct (if waveOnClick config then _ else _) as [waves d1].
  reflexivity.
Qed.


(* ================================================================= *)
(** ** Frames and resizes *)

(** What a frame changes and what it leaves. *)
Lemma animate_frame (config : Config) (s : State) :
  canvas_width (animate config s) = canvas_width s
  /\ canvas_height (animate config s) = canvas_height s
  /\ easterEggParticleFound (animate config s) = easterEggParticleFound s
  /\ mouse (animate config s) = mouse s
  /\ isMouseDown (animate config s) = isMouseDown s
  /\ currentTheme (animate config s) = currentTheme s
  /\ particles (animate config s)
     = map (update config (canvas_width s) (canvas_height s)
                   (mouse s) (isMouseDown s)) (particles s)
  /\ activeWaves (animate config s)
     = if waveOnClick config
       then advanceWaves config
              (rgb (waveColor (themeColors config (currentTheme s))))
              (alphaOr1 (waveColor (themeColors config (currentTheme s))))
              (activeWaves s)
       else activeWaves s.
Proof.
  unfold animate, advanceWaves, getThemeColors.
  destruct (waveOnClick config).
  - destruct (filterWaves config _ _ (activeWaves s)) as [waves d1].
    simpl. repeat split.
  - simpl. repeat split.
Qed.

Lemma eggIndex_lt (config : Config) (random : nat -> R) (s : State) :
  (0 < particleCount config)%nat ->
  (eggIndex config random s < particleCount config)%nat.
Proof.
  intros Hn. unfold eggIndex.
  destruct (easterEggAlwaysFirst config); lia.
Qed.

(** [init] never throws. *)
Lemma init_succeeds (config : Config) (random : nat -> R) (W H : R)
    (s : State) :
  exists (ps : list Particle.t) (draws : nat),
    init config random W H s
    = Some (startAnimation config (initialised W H ps draws s))
    /\ List.length ps = particleCount config.
Proof.
  rewrite init_result. cbv zeta.
  set (ps := makeParticles config random W H (particleCount config)
               (randomCalls s)).
  assert (Hlen : List.length ps = particleCount config)
    by apply makeParticles_length.
  destruct (enableEasterEgg config && (0 <? particleCount config)%nat) eqn:E.
  - apply andb_prop in E. destruct E as [_ Hpos]. apply Nat.ltb_lt in Hpos.
    destruct (markEgg_one ps (makeParticles_plain _ _ _ _ _ _)
                (eggIndex config random s))
      as (ps' & -> & Hl & _).
    + rewrite Hlen. apply eggIndex_lt. exact Hpos.
    + exists ps', (5 * particleCount config
                   + if easterEggAlwaysFirst config then 0 else 1)%nat.
      split; [reflexivity | congruence].
  - exists ps, (5 * particleCount config)%nat. split; [reflexivity | exact Hlen].
Qed.

(** Property X4.  A resize never fails.  It sets the canvas to the new
    window size, replaces the particles by [particleCount] new ones, resets
    the found flag and leaves the animation running.  It keeps the pointer
    state and does not clear the waves: they go through one frame, like in
    any other frame. *)
Theorem resize_effect (config : Config) (random : nat -> R)
    (innerWidth innerHeight : R) (s : State) :
  exists s' : State,
    handleResize config random innerWidth innerHeight s = Some s'
    /\ canvas_width s' = innerWidth /\ canvas_height s' = innerHeight
    /\ List.length (particles s') = particleCount config
    /\ easterEggParticleFound s' = false
    /\ truthy (animationFrameId s') = true
    /\ mouse s' = mouse s /\ isMouseDown s' = isMouseDown s
    /\ activeWaves s'
       = if waveOnClick config
         then advanceWaves config
                (rgb (waveColor (themeColors config (currentTheme s))))
                (alphaOr1 (waveColor (themeColors config (currentTheme s))))
                (activeWaves s)
         else activeWaves s.
Proof.
  unfold handleResize.
  destruct (init_succeeds config random innerWidth innerHeight
              (stopAnimation s)) as (ps & draws & -> & Hlen).
  eexists. split; [reflexivity |].
  assert (Hstop : truthy (animationFrameId (stopAnimation s)) = false).
  { unfold stopAnimation.
    destruct (truthy (animationFrameId s)) eqn:E; [reflexivity | exact E]. }
  assert (Hkeep : mouse (stopAnimation s) = mouse s
                  /\ isMouseDown (stopAnimation s) = isMouseDown s
                  /\ activeWaves (stopAnimation s) = activeWaves s
                  /\ currentTheme (stopAnimation s) = currentTheme s).
  { unfold stopAnimation. destruct (truthy (animationFrameId s));
      repeat split. }
  destruct Hkeep as (Hm & Hd & Hw & Ht).
  unfold startAnimation. cbn [animationFrameId initialised]. rewrite Hstop.
  cbn [negb].
  destruct (animate_frame config
              (initialised innerWidth innerHeight ps draws (stopAnimation s)))
    as (-> & -> & -> & -> & -> & _ & -> & ->).
  rewrite animate_running. cbn [initialised canvas_width canvas_height
    easterEggParticleFound mouse isMouseDown particles activeWaves
    currentTheme].
  rewrite length_map, Hm, Hd, Hw, Ht. repeat split. exact Hlen.
Qed.

(** Marking changes the flag of the particle at the index and nothing
    else. *)
Lemma markEgg_nth (ps ps' : list Particle.t) (i : nat) :
  markEgg ps i = Some ps' ->
  forall j : nat,
    nth_error ps' j
    = if (j =? i)%nat
      then option_map (fun p => Particle.set_isEasterEgg p true)
             (nth_error ps j)
      else nth_error ps j.
Proof.
  revert ps' i. induction ps as [| p rest IH]; intros ps' i Hm j;
    simpl in Hm; [discriminate |].
  destruct i as [| i].
  - injection Hm as <-. destruct j; reflexivity.
  - destruct (markEgg rest i) as [rest' |] eqn:E; [| discriminate].
    injection Hm as <-. destruct j as [| j]; [reflexivity |].
    simpl. apply (IH rest' i E).
Qed.

Lemma makeParticles_nth (config : Config) (random : nat -> R) (W H : R)
    (n k j : nat) (p : Particle.t) :
  nth_error (makeParticles config random W H n k) j = Some p ->
  Particle.isEasterEgg p = false.
Proof.
  revert k j. induction n as [| n IH]; intros k j Hp; simpl in Hp.
  - destruct j; discriminate.
  - destruct j as [| j].
    + injection Hp as <-. reflexivity.
    + exact (IH _ _ Hp).
Qed.

Lemma startAnimation_nth (config : Config) (s : State) (j : nat) :
  option_map Particle.isEasterEgg (nth_error (particles (startAnimation config s)) j)
  = option_map Particle.isEasterEgg (nth_error (particles s) j).
Proof.
  unfold startAnimation. destruct (negb (truthy (animationFrameId s)));
    [| reflexivity].
  destruct (animate_frame config s) as (_ & _ & _ & _ & _ & _ & -> & _).
  rewrite nth_error_map. destruct (nth_error (particles s) j); simpl;
    [| reflexivity].
  rewrite update_isEasterEgg. reflexivity.
Qed.

(** Property X5.  With the egg enabled and at least one particle, [init]
    makes the particle at [eggIndex] the special one and no other: index 0
    under [easterEggAlwaysFirst], otherwise
    [max(0, min(length - 1, floor(random * length)))]. *)
Theorem egg_placement (config : Config) (random : nat -> R) (W H : R)
    (s : State) :
  enableEasterEgg config = true -> (0 < particleCount config)%nat ->
  exists s' : State,
    init config random W H s = Some s'
    /\ forall j : nat, (j < particleCount config)%nat ->
         exists p : Particle.t,
           nth_error (particles s') j = Some p
           /\ Particle.isEasterEgg p = (j =? eggIndex config random s)%nat.
Proof.
  intros Hen Hn. rewrite init_result. cbv zeta. rewrite Hen.
  replace (0 <? particleCount config)%nat with true
    by (symmetry; apply Nat.ltb_lt; exact Hn).
  cbn [andb].
  set (ps := makeParticles config random W H (particleCount config)
               (randomCalls s)).
  assert (Hlen : List.length ps = particleCount config)
    by apply makeParticles_length.
  destruct (markEgg_one ps (makeParticles_plain _ _ _ _ _ _)
              (eggIndex config random s)) as (ps' & Hmark & Hl & _).
  { rewrite Hlen. apply eggIndex_lt. exact Hn. }
  rewrite Hmark. eexists. split; [reflexivity |].
  intros j Hj.
  pose proof (startAnimation_nth config
                (initialised W H ps'
                   (5 * particleCount config
                    + (if easterEggAlwaysFirst config then 0 else 1)) s) j)
    as Hstart.
  cbn [particles initialised] in Hstart.
  rewrite (markEgg_nth ps ps' _ Hmark j) in Hstart.
  destruct (nth_error ps j) as [q |] eqn:Eq.
  - pose proof (makeParticles_nth _ _ _ _ _ _ _ _ Eq) as Hq.
    destruct (nth_error (particles (startAnimation config _)) j) as [p |];
      [| destruct (j =? eggIndex config random s)%nat; discriminate].
    exists p. split; [reflexivity |].
    destruct (j =? eggIndex config random s)%nat; simpl in Hstart;
      injection Hstart as ->; [reflexivity | exact Hq].
  - apply nth_error_None in Eq. lia.
Qed.

Lemma egg_placement_witness :
  exists s' : State,
    init shipped (fun _ => 0.5%R) 800 600 blank = Some s'
    /\ exists p : Particle.t,
         nth_error (particles s') 60 = Some p
         /\ Particle.isEasterEgg p = true.
Proof.
  destruct (egg_placement shipped (fun _ => 0.5%R) 800 600 blank)
    as (s' & Hinit & Hegg).
  - reflexivity.
  - simpl. lia.
  - exists s'. split; [exact Hinit |].
    destruct (Hegg 60%nat ltac:(simpl; lia)) as (p & Hp & Hflag).
    exists p. split; [exact Hp |]. rewrite Hflag.
    apply Nat.eqb_eq. unfold eggIndex.
    cbn [easterEggAlwaysFirst particleCount shipped].
    rewrite INR_IZR_INZ. change (Z.of_nat 120) with 120%Z.
    replace (0.5 * 120)%R with (IZR 60) by lra.
    rewrite ZfloorZ. reflexivity.
Defined.

(* ================================================================= *)
(** ** What a session keeps *)

Lemma update_radius (config : Config) (W H : R) (m : Mouse.t)
    (down : bool) (p : Particle.t) :
  Particle.radius (update config W H m down p) = Particle.radius p.
Proof.
  unfold update.
  destruct (bounceY_frame H (bounceX W (move (repel config m down p))))
    as (_ & _ & -> & _).
  destruct (bounceX_frame W (move (repel config m down p)))
    as (_ & _ & -> & _).
  unfold move. simpl.
  destruct (repel_position config m down p) as (_ & _ & -> & _).
  reflexivity.
Qed.

Lemma hideEasterEggPopup_particles (popupElement : bool) (s : State) :
  particles (hideEasterEggPopup popupElement s) = particles s.
Proof.
  unfold hideEasterEggPopup.
  destruct popupElement, (truthy (popupTimeoutId s)); reflexivity.
Qed.

(** Property X6.  No event other than a resize adds or removes a
    particle, changes a radius or changes which particle is special. *)
Theorem particles_stable (config : Config) (random : nat -> R)
    (popupElement : bool) (es : list Event) (s s' : State) :
  Forall (fun e => isResize e = false) es ->
  run config random popupElement es s = Some s' ->
  map Particle.radius (particles s') = map Particle.radius (particles s)
  /\ map Particle.isEasterEgg (particles s')
     = map Particle.isEasterEgg (particles s).
Proof.
  intros Hes. revert s. induction Hes as [| e rest He Hrest IH];
    intros s Hrun; simpl in Hrun.
  - injection Hrun as <-. split; reflexivity.
  - destruct (handle config random popupElement e s) as [s1 |] eqn:E;
      [| discriminate].
    destruct (IH s1 Hrun) as [-> ->]. clear IH Hrun.
    assert (Hsame : particles s1 = particles s
                    \/ exists W H m down,
                         particles s1
                         = map (update config W H m down) (particles s)).
    { destruct e; simpl in E; try discriminate He.
      - destruct (truthy (animationFrameId s)); injection E as <-;
          [| left; reflexivity].
        right. destruct (animate_frame config s)
          as (_ & _ & _ & _ & _ & _ & -> & _). eauto.
      - injection E as <-. left. reflexivity.
      - injection E as <-. left. reflexivity.
      - injection E as <-. left.
        apply (press_position_stable config popupElement event s).
      - injection E as <-. left. reflexivity.
      - injection E as <-. left. reflexivity.
      - destruct (existsb (Nat.eqb id) (pendingTimeouts s));
          injection E as <-; left; [| reflexivity].
        rewrite hideEasterEggPopup_particles. reflexivity.
      - injection E as <-. left. apply hideEasterEggPopup_particles. }
    destruct Hsame as [-> | (W & H & m & down & ->)]; [split; reflexivity |].
    rewrite !map_map. split; apply map_ext; intros p.
    + apply update_radius.
    + apply update_isEasterEgg.
Qed.

Lemma particles_stable_witness :
  map Particle.isEasterEgg
    (particles
       (mouseup (mouseout (mousedown shipped true (pressAt 300 200) scene))))
  = [false; true].
Proof.
  apply (particles_stable shipped (fun _ => 0%R) true
           [MousePressed (pressAt 300 200); MouseLeft; MouseReleased]
           scene
           (mouseup (mouseout (mousedown shipped true (pressAt 300 200) scene)))).
  - repeat constructor.
  - reflexivity.
Defined.

(* ================================================================= *)
(** ** New particles *)

Lemma newParticle_asConstructed (config : Config) (random : nat -> R)
    (W H : R) (k : nat) :
  (forall i : nat, (0 <= random i < 1)%R) ->
  (0 < particleRadius config)%R -> (0 <= particleSpeed config)%R ->
  (3 * particleRadius config <= W)%R -> (3 * particleRadius config <= H)%R ->
  asConstructed config W H (newParticle config random W H k).
Proof.
  intros Hrand Hpr Hs HW HH.
  pose proof (Hrand k) as H0. pose proof (Hrand (k + 1)%nat) as H1.
  pose proof (Hrand (k + 2)%nat) as H2. pose proof (Hrand (k + 3)%nat) as H3.
  pose proof (Hrand (k + 4)%nat) as H4.
  unfold asConstructed, newParticle, getRandom, inBounds.
  cbn [JS.mul JS.sub JS.add JS.neg JS.eqb Particle.radius Particle.x
       Particle.y Particle.vx Particle.vy Particle.isEasterEgg].
  set (pr := particleRadius config) in *.
  set (sp := particleSpeed config) in *.
  set (r := (random k * (pr * 1.5 + - (pr * 0.5)) + pr * 0.5)%R).
  assert (Hr : (pr * 0.5 <= r <= pr * 1.5)%R) by (unfold r; nra).
  set (v0 := (random (k + 3)%nat * (sp + - - sp) + - sp)%R).
  set (w0 := (random (k + 4)%nat * (sp + - - sp) + - sp)%R).
  assert (Hv0 : (Rabs v0 <= sp)%R) by (apply Rabs_le; unfold v0; nra).
  assert (Hw0 : (Rabs w0 <= sp)%R) by (apply Rabs_le; unfold w0; nra).
  exists r, (if JS.Reqb v0 0 then 0.1%R else v0),
            (if JS.Reqb w0 0 then 0.1%R else w0).
  split; [reflexivity |].
  split; [destruct (JS.Reqb v0 0); reflexivity |].
  split; [destruct (JS.Reqb w0 0); reflexivity |].
  split; [exact Hr |].
  split.
  { cbn [JS.le]. repeat split; apply Rleb_true; nra. }
  unfold JS.Reqb.
  destruct (Req_dec_T v0 0), (Req_dec_T w0 0);
    repeat split; auto; lra.
Qed.

(** Property X7.  When [Math.random] stays in [0, 1), the configured
    radius is positive, the speed is not negative and the canvas is at
    least three configured radii wide and tall, every particle [init]
    constructs has a radius between 0.5 and 1.5 times the configured one,
    lies inside the canvas a radius away from each edge, is not special,
    and has a velocity with no zero component, each component within the
    base speed or equal to the 0.1 that replaces a zero draw. *)
Theorem particles_asConstructed (config : Config) (random : nat -> R)
    (W H : R) (n k : nat) :
  (forall i : nat, (0 <= random i < 1)%R) ->
  (0 < particleRadius config)%R -> (0 <= particleSpeed config)%R ->
  (3 * particleRadius config <= W)%R -> (3 * particleRadius config <= H)%R ->
  Forall (asConstructed config W H) (makeParticles config random W H n k).
Proof.
  intros Hrand Hpr Hs HW HH. revert k.
  induction n as [| n IH]; intros k; simpl; constructor.
  - apply newParticle_asConstructed; assumption.
  - apply IH.
Qed.

Lemma particles_asConstructed_witness :
  Forall (asConstructed shipped 800 600)
    (makeParticles shipped (fun _ => 0.5%R) 800 600 120 0).
Proof.
  apply particles_asConstructed; simpl; try lra.
  intros _. lra.
Defined.

(* ================================================================= *)
(** ** Speed and reflection *)

Lemma bounceX_velocity (W : R) (p : Particle.t) :
  Particle.vx (bounceX W p) = Particle.vx p
  \/ Particle.vx (bounceX W p) = - Particle.vx p.
Proof.
  unfold bounceX.
  match goal with |- context [if ?c then _ else _] => destruct c end;
    [right | left]; reflexivity.
Qed.

Lemma bounceY_velocity (H : R) (p : Particle.t) :
  Particle.vy (bounceY H p) = Particle.vy p
  \/ Particle.vy (bounceY H p) = - Particle.vy p.
Proof.
  unfold bounceY.
  match goal with |- context [if ?c then _ else _] => destruct c end;
    [right | left]; reflexivity.
Qed.

(** Unless the pressed pointer is exactly on the particle, the force step
    keeps a capped velocity capped. *)
Lemma repel_capped (config : Config) (m : Mouse.t) (down : bool)
    (p : Particle.t) (a b : R) :
  Particle.x p = Fin a -> Particle.y p = Fin b ->
  (0 <= particleSpeed config)%R ->
  cappedVelocity config p ->
  ~ (down = true /\ onParticle m p) ->
  cappedVelocity config (repel config m down p).
Proof.
  intros Hx Hy Hs Hcap Havoid.
  destruct down; [| exact Hcap].
  destruct (Mouse.x m) as [mx |] eqn:Emx;
    [| unfold repel; rewrite Emx; exact Hcap].
  destruct (Mouse.y m) as [my |] eqn:Emy;
    [| unfold repel; rewrite Emx, Emy; exact Hcap].
  assert (Hidle : forall q, q = p -> cappedVelocity config q)
    by (intros q ->; exact Hcap).
  destruct mx as [| | mx |], my as [| | my |];
    try (apply Hidle; unfold repel; rewrite Emx, Emy, Hx, Hy; simpl;
         repeat match goal with
                | |- context [JS.Rltb ?u ?v] => destruct (JS.Rltb u v)
                end; reflexivity).
  set (d := R_sqrt.sqrt ((a - mx) * (a - mx) + (b - my) * (b - my))).
  destruct (Rlt_dec d (mouseRepelRadius config)) as [Hlt | Hge].
  - assert (Hd : (0 < d)%R).
    { destruct (Req_dec_T d 0) as [H0 | Hn0].
      - apply sqrt_squares_0 in H0. destruct H0 as [Hu Hv].
        exfalso. apply Havoid. split; [reflexivity |].
        unfold onParticle. rewrite Emx, Emy, Hx, Hy.
        split; do 2 f_equal; lra.
      - pose proof (sqrt_squares_pos (a - mx) (b - my)). fold d in H. lra. }
    rewrite (repel_force config m p a b mx my Hx Hy Emx Emy (conj Hd Hlt)).
    fold d. destruct Hcap as (v & w & Hv & Hw & _ & _).
    rewrite Hv, Hw. cbn [JS.add].
    set (ms := (particleSpeed config * 3)%R).
    assert (Hms : (- ms <= ms)%R) by (unfold ms; lra).
    edestruct (clamp_range (- ms) ms) as [c [-> Hc]];
      [exact Hms | reflexivity |].
    edestruct (clamp_range (- ms) ms) as [e [-> He]];
      [exact Hms | reflexivity |].
    unfold ms in *.
    exists c, e. repeat split; try reflexivity; apply Rabs_le; lra.
  - apply Hidle. unfold repel. rewrite Emx, Emy, Hx, Hy. simpl.
    fold (a - mx)%R (b - my)%R.
    rewrite (Rltb_false ((a - mx) * (a - mx) + (b - my) * (b - my)) 0)
      by apply squares_nonneg.
    fold d. simpl. rewrite (Rltb_false d (mouseRepelRadius config)) by lra.
    reflexivity.
Qed.

Lemma update_capped (config : Config) (W H r : R) (m : Mouse.t)
    (down : bool) (p : Particle.t) :
  Particle.radius p = Fin r -> inBounds W H p ->
  (0 <= particleSpeed config)%R ->
  cappedVelocity config p ->
  ~ (down = true /\ onParticle m p) ->
  cappedVelocity config (update config W H m down p).
Proof.
  intros Hr Hin Hs Hcap Havoid.
  destruct (inBounds_finite W H r p Hr Hin) as (a & b & Hx & Hy & _ & _).
  pose proof (repel_capped config m down p a b Hx Hy Hs Hcap Havoid)
    as (v & w & Hv & Hw & Hvc & Hwc).
  unfold update. set (q := move (repel config m down p)).
  assert (Hqv : Particle.vx q = Fin v) by exact Hv.
  assert (Hqw : Particle.vy q = Fin w) by exact Hw.
  destruct (bounceX_frame W q) as (_ & Fvy & _).
  destruct (bounceY_frame H (bounceX W q)) as (_ & Gvx & _).
  assert (Hvx : exists v', Particle.vx (bounceY H (bounceX W q)) = Fin v'
                           /\ (Rabs v' <= particleSpeed config * 3)%R).
  { rewrite Gvx. destruct (bounceX_velocity W q) as [-> | ->]; rewrite Hqv;
      [exists v | exists (- v)%R]; split; try reflexivity;
      rewrite ?Rabs_Ropp; assumption. }
  assert (Hvy : exists w', Particle.vy (bounceY H (bounceX W q)) = Fin w'
                           /\ (Rabs w' <= particleSpeed config * 3)%R).
  { destruct (bounceY_velocity H (bounceX W q)) as [-> | ->];
      rewrite Fvy, Hqw; [exists w | exists (- w)%R]; split; try reflexivity;
      rewrite ?Rabs_Ropp; assumption. }
  destruct Hvx as (v' & Hv' & Hv'c). destruct Hvy as (w' & Hw' & Hw'c).
  exists v', w'. repeat split; assumption.
Qed.

(** Property X8.  The speed cap holds along any run of ticks: a particle
    inside the canvas whose velocity components are within three times the
    base speed keeps them so, tick after tick, whatever the pointer does,
    as long as the pressed pointer is never exactly on it. *)
Theorem speed_stays_capped (config : Config) (W H r : R)
    (trace : list (Mouse.t * bool)) (p : Particle.t) :
  (2 * r <= W)%R -> (2 * r <= H)%R -> (0 <= particleSpeed config)%R ->
  Particle.radius p = Fin r ->
  inBounds W H p -> cappedVelocity config p ->
  avoids config W H trace p ->
  cappedVelocity config (updates config W H trace p).
Proof.
  intros HW HH Hs. revert p.
  induction trace as [| [m down] rest IH];
    intros p Hr Hin Hcap Hav; simpl in *.
  - exact Hcap.
  - destruct Hav as [Hnow Hrest].
    assert (Hnum : numericVelocity p).
    { destruct Hcap as (v & w & Hv & Hw & _). unfold numericVelocity.
      rewrite Hv, Hw. split; reflexivity. }
    destruct (update_inBounds config W H r m down p Hr HW HH Hin Hnum Hnow)
      as (Hr' & Hin' & _).
    apply IH; try assumption.
    apply (update_capped config W H r); assumption.
Qed.

Lemma speed_stays_capped_witness :
  cappedVelocity shipped
    (updates shipped 800 600
       [(Mouse.mk (Some (Fin 0)) (Some (Fin 0)), true);
        (Mouse.mk None None, false)] nearOrigin).
Proof.
  apply (speed_stays_capped shipped 800 600 4).
  - lra.
  - lra.
  - simpl. lra.
  - reflexivity.
  - unfold inBounds, nearOrigin. simpl. repeat split; apply Rleb_true; lra.
  - exists 0.1%R, 0.1%R. simpl.
    repeat split; try reflexivity; apply Rabs_le; lra.
  - simpl. split.
    + intros [_ [Hx _]]. simpl in Hx. injection Hx as Hx. lra.
    + split; [| exact I]. intros [Hd _]. discriminate Hd.
Defined.

(** The tick of [particles.js] along the x axis, in closed form. *)
Lemma plain_update_x (W H r a v : R) (p : Particle.t) :
  Particle.radius p = Fin r -> Particle.x p = Fin a -> Particle.vx p = Fin v ->
  (2 * r <= W)%R ->
  Particle.x (Plain.update W H p)
  = Fin (if Rlt_dec (W - r) (a + v) then W - r
         else if Rlt_dec (a + v) r then r else a + v)
  /\ Particle.vx (Plain.update W H p)
     = Fin (if Rlt_dec (W - r) (a + v) then - v
            else if Rlt_dec (a + v) r then - v else v)
  /\ Particle.radius (Plain.update W H p) = Fin r.
Proof.
  intros Hr Hx Hv HW. unfold Plain.update.
  destruct (bounceY_frame H (bounceX W (move p))) as (-> & -> & -> & _).
  unfold bounceX, move. cbn [Particle.x Particle.vx Particle.radius
    Particle.set_pos Particle.set_x]. rewrite Hr, Hx, Hv.
  unfold JS.gt. cbn [JS.add JS.sub JS.neg JS.lt].
  rewrite min_Fin, max_Fin.
  destruct (Rlt_dec (W - r) (a + v)) as [Hhi | Hhi].
  - rewrite (Rltb_true W (a + v + r)) by lra. cbn [orb].
    cbn [Particle.x Particle.vx Particle.radius Particle.set_x JS.neg].
    split; [| split; [reflexivity | exact Hr]]. f_equal.
    rewrite Rmin_left by lra. rewrite Rmax_right by lra. lra.
  - rewrite (Rltb_false W (a + v + r)) by lra. cbn [orb].
    destruct (Rlt_dec (a + v) r) as [Hlo | Hlo].
    + rewrite (Rltb_true (a + v + - r) 0) by lra.
      cbn [Particle.x Particle.vx Particle.radius Particle.set_x JS.neg].
      split; [| split; [reflexivity | exact Hr]]. f_equal.
      rewrite Rmin_right by lra. rewrite Rmax_left by lra. reflexivity.
    + rewrite (Rltb_false (a + v + - r) 0) by lra.
      cbn [Particle.x Particle.vx Particle.radius Particle.set_pos].
      split; [reflexivity | split; [exact Hv | exact Hr]].
Qed.

Lemma plain_update_y (W H r b w : R) (p : Particle.t) :
  Particle.radius p = Fin r -> Particle.y p = Fin b -> Particle.vy p = Fin w ->
  (2 * r <= H)%R ->
  Particle.y (Plain.update W H p)
  = Fin (if Rlt_dec (H - r) (b + w) then H - r
         else if Rlt_dec (b + w) r then r else b + w)
  /\ Particle.vy (Plain.update W H p)
     = Fin (if Rlt_dec (H - r) (b + w) then - w
            else if Rlt_dec (b + w) r then - w else w).
Proof.
  intros Hr Hy Hw HH. unfold Plain.update.
  set (q := bounceX W (move p)).
  assert (Hqr : Particle.radius q = Fin r).
  { unfold q. destruct (bounceX_frame W (move p)) as (_ & _ & -> & _).
    exact Hr. }
  assert (Hqy : Particle.y q = Fin (b + w)).
  { unfold q. destruct (bounceX_frame W (move p)) as (-> & _).
    unfold move. simpl. rewrite Hy, Hw. reflexivity. }
  assert (Hqw : Particle.vy q = Fin w).
  { unfold q. destruct (bounceX_frame W (move p)) as (_ & -> & _).
    exact Hw. }
  unfold bounceY. rewrite Hqr, Hqy, Hqw.
  unfold JS.gt. cbn [JS.add JS.sub JS.neg JS.lt].
  rewrite min_Fin, max_Fin.
  destruct (Rlt_dec (H - r) (b + w)) as [Hhi | Hhi].
  - rewrite (Rltb_true H (b + w + r)) by lra. cbn [orb].
    cbn [Particle.y Particle.vy Particle.set_y JS.neg].
    split; [| reflexivity]. f_equal.
    rewrite Rmin_left by lra. rewrite Rmax_right by lra. lra.
  - rewrite (Rltb_false H (b + w + r)) by lra. cbn [orb].
    destruct (Rlt_dec (b + w) r) as [Hlo | Hlo].
    + rewrite (Rltb_true (b + w + - r) 0) by lra.
      cbn [Particle.y Particle.vy Particle.set_y JS.neg].
      split; [| reflexivity]. f_equal.
      rewrite Rmin_right by lra. rewrite Rmax_left by lra. reflexivity.
    + rewrite (Rltb_false (b + w + - r) 0) by lra.
      split; assumption.
Qed.

(** Property X9.  The tick of [particles.js] in closed form, for a
    particle with finite radius, position and velocity on a canvas at
    least two radii wide and tall.  On each axis the centre moves by the
    velocity; if that takes it past [size - radius] it is put at
    [size - radius], if it takes it below [radius] it is put at [radius],
    and in both cases the velocity on that axis changes sign; otherwise the
    velocity is kept.  The radius never changes. *)
Theorem plain_update_closed_form (W H r a b v w : R) (p : Particle.t) :
  Particle.radius p = Fin r ->
  Particle.x p = Fin a -> Particle.y p = Fin b ->
  Particle.vx p = Fin v -> Particle.vy p = Fin w ->
  (2 * r <= W)%R -> (2 * r <= H)%R ->
  let q := Plain.update W H p in
  Particle.x q
  = Fin (if Rlt_dec (W - r) (a + v) then W - r
         else if Rlt_dec (a + v) r then r else a + v)
  /\ Particle.vx q
     = Fin (if Rlt_dec (W - r) (a + v) then - v
            else if Rlt_dec (a + v) r then - v else v)
  /\ Particle.y q
     = Fin (if Rlt_dec (H - r) (b + w) then H - r
            else if Rlt_dec (b + w) r then r else b + w)
  /\ Particle.vy q
     = Fin (if Rlt_dec (H - r) (b + w) then - w
            else if Rlt_dec (b + w) r then - w else w)
  /\ Particle.radius q = Fin r.
Proof.
  intros Hr Hx Hy Hv Hw HW HH q.
  destruct (plain_update_x W H r a v p Hr Hx Hv HW) as (Qx & Qv & Qr).
  destruct (plain_update_y W H r b w p Hr Hy Hw HH) as (Qy & Qw).
  repeat split; assumption.
Qed.

Lemma plain_update_closed_form_witness :
  Particle.x (Plain.update 800 600 nearOrigin) = Fin 30.1
  /\ Particle.vx (Plain.update 800 600 nearOrigin) = Fin 0.1.
Proof.
  destruct (plain_update_closed_form 800 600 4 30 40 0.1 0.1 nearOrigin)
    as (Qx & Qv & _); try reflexivity; try lra.
  rewrite Qx, Qv.
  destruct (Rlt_dec (800 - 4) (30 + 0.1)); [lra |].
  destruct (Rlt_dec (30 + 0.1) 4); [lra |].
  split; f_equal; lra.
Defined.

(** Property X10.  A bounce does not stick.  A particle inside the canvas
    whose next step takes it past the right edge is put on the edge with
    its horizontal velocity reversed, and the tick after that moves it away
    from the edge without reversing again, provided one step is no longer
    than the room between the walls; likewise at the left edge. *)
Theorem bounce_does_not_stick (W H r a v : R) (p : Particle.t) :
  Particle.radius p = Fin r -> Particle.x p = Fin a -> Particle.vx p = Fin v ->
  (r <= a <= W - r)%R -> (Rabs v <= W - 2 * r)%R ->
  let p1 := Plain.update W H p in
  let p2 := Plain.update W H p1 in
  ((W - r < a + v)%R ->
     Particle.x p1 = Fin (W - r) /\ Particle.vx p1 = Fin (- v)
     /\ Particle.x p2 = Fin (W - r - v) /\ Particle.vx p2 = Fin (- v))
  /\ ((a + v < r)%R ->
        Particle.x p1 = Fin r /\ Particle.vx p1 = Fin (- v)
        /\ Particle.x p2 = Fin (r - v) /\ Particle.vx p2 = Fin (- v)).
Proof.
  intros Hr Hx Hv Hin Hstep p1 p2.
  assert (HW : (2 * r <= W)%R) by lra.
  destruct (plain_update_x W H r a v p Hr Hx Hv HW) as (Qx & Qv & Qr).
  fold p1 in Qx, Qv, Qr.
  assert (Hv' : (- (W - 2 * r) <= v <= W - 2 * r)%R) by (unfold Rabs in Hstep; destruct (Rcase_abs v); lra).
  split; intros Hcross.
  - destruct (Rlt_dec (W - r) (a + v)) as [_ | Hn]; [| lra].
    destruct (plain_update_x W H r (W - r) (- v) p1 Qr Qx Qv HW)
      as (Rx & Rv & _).
    fold p2 in Rx, Rv.
    destruct (Rlt_dec (W - r) (W - r + - v)) as [Hbad | _]; [lra |].
    destruct (Rlt_dec (W - r + - v) r) as [Hbad | _]; [lra |].
    repeat split; assumption.
  - destruct (Rlt_dec (W - r) (a + v)) as [Hbad | _]; [lra |].
    destruct (Rlt_dec (a + v) r) as [_ | Hn]; [| lra].
    destruct (plain_update_x W H r r (- v) p1 Qr Qx Qv HW)
      as (Rx & Rv & _).
    fold p2 in Rx, Rv.
    destruct (Rlt_dec (W - r) (r + - v)) as [Hbad | _]; [lra |].
    destruct (Rlt_dec (r + - v) r) as [Hbad | _]; [lra |].
    repeat split; assumption.
Qed.

Lemma bounce_does_not_stick_witness :
  let p := Particle.mk (Fin 4) (Fin 795.95) (Fin 100) (Fin 0.1) (Fin 0.1) false in
  Particle.x (Plain.update 800 600 p) = Fin 796
  /\ Particle.x (Plain.update 800 600 (Plain.update 800 600 p)) = Fin 795.9.
Proof.
  intros p.
  destruct (bounce_does_not_stick 800 600 4 795.95 0.1 p)
    as [Hright _]; try reflexivity.
  - lra.
  - apply Rabs_le. lra.
  - destruct Hright as (H1 & _ & H2 & _); [lra |].
    rewrite H1, H2. split; f_equal; lra.
Defined.

(* ================================================================= *)
(** ** More on waves *)

Lemma advanceWavesN_nil (config : Config) (rgb : string) (alpha : num)
    (n : nat) :
  advanceWavesN config rgb alpha n [] = [].
Proof.
  unfold advanceWavesN. induction n as [| n IH]; [reflexivity |].
  simpl. rewrite IH. reflexivity.
Qed.

(** Property X11.  Waves do not interact: [n] frames of a collection are
    [n] frames of each of its waves taken alone, in the same order; in
    particular a frame never adds a wave. *)
Theorem waves_advance_separately (config : Config) (waveBaseRGB : string)
    (waveBaseAlpha : num) (n : nat) (ws : list Wave.t) :
  advanceWavesN config waveBaseRGB waveBaseAlpha n ws
  = flat_map (fun w => survivors (waveAfter config waveBaseAlpha n w)) ws
  /\ (List.length (advanceWavesN config waveBaseRGB waveBaseAlpha n ws)
      <= List.length ws)%nat.
Proof.
  assert (Heq : advanceWavesN config waveBaseRGB waveBaseAlpha n ws
                = flat_map
                    (fun w => survivors (waveAfter config waveBaseAlpha n w))
                    ws).
  { induction ws as [| w rest IH].
    - apply advanceWavesN_nil.
    - change (w :: rest) with ([w] ++ rest).
      rewrite advanceWavesN_app, advanceWavesN_single, IH. reflexivity. }
  split; [exact Heq |]. rewrite Heq. clear Heq.
  induction ws as [| w rest IH]; simpl; [lia |].
  rewrite length_app.
  destruct (waveAfter config waveBaseAlpha n w); simpl; lia.
Qed.

(** A wave that is still there after some frames has life left. *)
Lemma waveAfter_alive_bound (config : Config) (alpha : num) (mx my : num) :
  (1 <= waveDurationFrames config)%Z ->
  forall (n j : nat) (w : Wave.t),
    waveAfter config alpha n (waveAt config mx my j) = Some w ->
    n = 0%nat \/ (Z.of_nat (j + n) < waveDurationFrames config)%Z.
Proof.
  intros HL. induction n as [| n IH]; intros j w Hw; [left; reflexivity |].
  right. simpl in Hw.
  destruct (waveKept config alpha (waveAt config mx my j)) eqn:Hk;
    [| discriminate].
  apply waveKept_life in Hk. simpl in Hk.
  rewrite waveUpdate_waveAt in Hw by exact HL.
  destruct (IH (S j) w Hw) as [-> | Hlt]; lia.
Qed.

(** Property X12.  Every wave in the collection, however many frames
    after the press that pushed it, is centred on the press, has between 1
    and [initialLife] frames of life left, and has a radius that is the
    elapsed share of [maxRadius]: never negative and never above
    [maxRadius]. *)
Theorem wave_in_collection (config : Config) (waveBaseRGB : string)
    (waveBaseAlpha : num) (mx my : num) (n : nat) (w : Wave.t) :
  (1 <= waveDurationFrames config)%Z -> (0 <= mouseRepelRadius config)%R ->
  In w (advanceWavesN config waveBaseRGB waveBaseAlpha n
          [newWave config mx my]) ->
  Wave.x w = mx /\ Wave.y w = my
  /\ Wave.maxRadius w = Fin (mouseRepelRadius config)
  /\ Wave.initialLife w = waveDurationFrames config
  /\ Wave.life w = (waveDurationFrames config - Z.of_nat n)%Z
  /\ (1 <= Wave.life w <= waveDurationFrames config)%Z
  /\ exists r : R,
       Wave.currentRadius w = Fin r
       /\ (r = (1 - IZR (Wave.life w) / IZR (Wave.initialLife w))
               * mouseRepelRadius config)%R
       /\ (0 <= r <= mouseRepelRadius config)%R.
Proof.
  intros HL Hm Hin. rewrite advanceWavesN_single in Hin.
  destruct (waveAfter config waveBaseAlpha n (newWave config mx my))
    as [w' |] eqn:Hw; [| destruct Hin].
  destruct Hin as [<- | []].
  rewrite <- waveAt_0 in Hw.
  pose proof (waveAfter_alive_bound config waveBaseAlpha mx my HL n 0 w' Hw)
    as Hn.
  apply (waveAfter_waveAt config waveBaseAlpha mx my HL) in Hw.
  subst w'. simpl Nat.add in *. unfold waveAt.
  cbn [Wave.x Wave.y Wave.maxRadius Wave.initialLife Wave.life
       Wave.currentRadius].
  set (L := waveDurationFrames config) in *.
  set (m := mouseRepelRadius config) in *.
  assert (HL0 : (0 < IZR L)%R) by (apply IZR_lt; lia).
  assert (Hn' : (Z.of_nat n < L)%Z) by (destruct Hn as [-> | Hn]; lia).
  repeat split; try lia.
  exists (INR n * (m / IZR L))%R.
  assert (Hle : (INR n <= IZR L)%R)
    by (rewrite INR_IZR_INZ; apply IZR_le; lia).
  pose proof (pos_INR n) as Hpos.
  assert (Hq : (0 <= m / IZR L)%R).
  { apply Rmult_le_pos; [exact Hm |]. apply Rlt_le, Rinv_0_lt_compat, HL0. }
  split; [reflexivity |]. split.
  - rewrite minus_IZR, <- INR_IZR_INZ. field. lra.
  - split; [apply Rmult_le_pos; assumption |].
    replace m with (IZR L * (m / IZR L))%R at 2 by (field; lra).
    apply Rmult_le_compat_r; assumption.
Qed.

Lemma wave_in_collection_witness :
  In (waveAt shipped (Fin 500) (Fin 200) 30)
     (advanceWavesN shipped "0, 86, 179" (Fin 0.15) 30
        [newWave shipped (Fin 500) (Fin 200)])
  /\ Wave.life (waveAt shipped (Fin 500) (Fin 200) 30) = 60%Z.
Proof.
  assert (Hin : In (waveAt shipped (Fin 500) (Fin 200) 30)
                  (advanceWavesN shipped "0, 86, 179" (Fin 0.15) 30
                     [newWave shipped (Fin 500) (Fin 200)])).
  { rewrite advanceWavesN_single, <- waveAt_0.
    rewrite (waveAfter_alive shipped 0.15 (Fin 500) (Fin 200)).
    - left. reflexivity.
    - simpl. lra.
    - simpl. lia.
    - simpl. lra.
    - lra.
    - simpl. lia. }
  split; [exact Hin |].
  destruct (wave_in_collection shipped "0, 86, 179" (Fin 0.15)
              (Fin 500) (Fin 200) 30
              (waveAt shipped (Fin 500) (Fin 200) 30))
    as (_ & _ & _ & _ & Hlife & _).
  - simpl. lia.
  - simpl. lra.
  - exact Hin.
  - rewrite Hlife. reflexivity.
Defined.

(** Property X13.  The ring drawn for a wave in its [(k+1)]-th frame, while
    frames remain after it: centred on the press, of radius [(k+1)/L] of
    [maxRadius], with a line width that falls linearly from the initial
    width, and with an opacity that falls linearly from the base alpha when
    fading is on and stays at the base alpha when it is off. *)
Theorem wave_stroke (config : Config) (waveBaseRGB : string) (a : R)
    (mx my : num) (k : nat) :
  (0 < mouseRepelRadius config)%R -> (1 <= waveDurationFrames config)%Z ->
  (0 < waveInitialLineWidth config)%R -> (0 < a)%R ->
  (Z.of_nat (S k) < waveDurationFrames config)%Z ->
  snd (waveCallback config waveBaseRGB (Fin a) (waveAt config mx my k))
  = [strokeArc mx my
       (Fin (INR (S k) / IZR (waveDurationFrames config)
             * mouseRepelRadius config))
       waveBaseRGB
       (Fin (if waveFadeOut config
             then (1 - INR (S k) / IZR (waveDurationFrames config)) * a
             else a))
       (Fin (waveInitialLineWidth config
             * (1 - INR (S k) / IZR (waveDurationFrames config))))].
Proof.
  intros Hm HL Hw Ha Hk.
  unfold waveCallback. rewrite waveUpdate_waveAt by exact HL.
  assert (HL0 : (0 < IZR (waveDurationFrames config))%R)
    by (apply IZR_lt; lia).
  unfold waveAt, waveLineWidth, waveOpacity, waveProgress.
  cbn [Wave.life Wave.currentRadius Wave.maxRadius Wave.initialLife
       Wave.initialLineWidth Wave.x Wave.y].
  set (L := waveDurationFrames config) in *.
  assert (Hlife : (0 < IZR (L - Z.of_nat (S k)))%R) by (apply IZR_lt; lia).
  assert (Hfrac : (0 < IZR (L - Z.of_nat (S k)) / IZR L)%R)
    by (apply Rdiv_lt_0_compat; assumption).
  assert (Hk' : (INR (S k) < IZR L)%R)
    by (rewrite INR_IZR_INZ; apply IZR_lt; lia).
  pose proof (growth_positive config Hm HL) as Hq. fold L in Hq.
  assert (Hreach : (INR (S k) * (mouseRepelRadius config / IZR L)
                    < mouseRepelRadius config * 1.1)%R).
  { assert (IZR L * (mouseRepelRadius config / IZR L)
            = mouseRepelRadius config)%R by (field; lra).
    nra. }
  assert (Hshare : (IZR (L - Z.of_nat (S k)) / IZR L
                    = 1 - INR (S k) / IZR L)%R).
  { rewrite minus_IZR, <- INR_IZR_INZ. field. lra. }
  replace (0 <? L - Z.of_nat (S k))%Z with true
    by (symmetry; apply Z.ltb_lt; lia).
  cbn [JS.div JS.sub JS.add JS.neg JS.mul JS.lt JS.le andb].
  rewrite (Reqb_false (IZR L) 0) by lra.
  cbn [JS.div JS.sub JS.add JS.neg JS.mul JS.lt JS.le andb].
  rewrite (Rltb_true _ _ Hreach).
  rewrite Rleb_false by nra.
  destruct (waveFadeOut config);
    cbn [JS.div JS.sub JS.add JS.neg JS.mul JS.lt JS.le andb orb negb].
  - rewrite Rleb_false by nra. cbn [snd].
    do 2 f_equal; f_equal.
    + field. lra.
    + rewrite <- Hshare. field. lra.
    + rewrite <- Hshare. field. lra.
  - rewrite Rleb_false by lra. cbn [snd].
    do 2 f_equal; f_equal.
    + field. lra.
    + rewrite <- Hshare. field. lra.
Qed.

Lemma wave_stroke_witness :
  snd (waveCallback shipped "0, 86, 179" (Fin 0.15)
         (waveAt shipped (Fin 500) (Fin 200) 44))
  = [strokeArc (Fin 500) (Fin 200)
       (Fin (INR 45 / IZR 90 * 150)) "0, 86, 179"
       (Fin ((1 - INR 45 / IZR 90) * 0.15))
       (Fin (1 * (1 - INR 45 / IZR 90)))].
Proof.
  apply (wave_stroke shipped "0, 86, 179" 0.15 (Fin 500) (Fin 200) 44).
  - simpl. lra.
  - simpl. lia.
  - simpl. lra.
  - lra.
  - simpl. lia.
Defined.

(* ================================================================= *)
(** ** The pointer *)

(** Property X14.  The line from a particle to the pointer: drawn exactly
    when their distance [d] is below [mouseRadius], whether or not the
    button is held, with opacity [(1 - d / mouseRadius) * 0.5], which lies
    in (0, 0.5]; the floor at 0 never applies. *)
Theorem pointer_line (config : Config) (colors : Palette) (m : Mouse.t)
    (p : Particle.t) (a b mx my : R) :
  Particle.x p = Fin a -> Particle.y p = Fin b ->
  Mouse.x m = Some (Fin mx) -> Mouse.y m = Some (Fin my) ->
  let d := R_sqrt.sqrt ((a - mx) * (a - mx) + (b - my) * (b - my)) in
  ((mouseRadius config <= d)%R -> mouseLine config colors m p = [])
  /\ ((d < mouseRadius config)%R ->
      mouseLine config colors m p
      = [strokeLine (Fin a) (Fin b) (Fin mx) (Fin my)
           (rgb (lineColor colors))
           (Fin ((1 - d / mouseRadius config) * 0.5))
           (Fin (lineWidth config))]
      /\ (0 < (1 - d / mouseRadius config) * 0.5 <= 0.5)%R).
Proof.
  intros Hx Hy Hmx Hmy d.
  assert (Hd0 : (0 <= d)%R) by apply sqrt_pos.
  unfold mouseLine. rewrite Hmx, Hmy, Hx, Hy. simpl.
  fold (a - mx)%R (b - my)%R.
  rewrite (Rltb_false ((a - mx) * (a - mx) + (b - my) * (b - my)) 0)
    by apply squares_nonneg.
  fold d. simpl. split.
  - intros Hfar. rewrite Rltb_false by lra. reflexivity.
  - intros Hnear. rewrite (Rltb_true _ _ Hnear).
    rewrite (Reqb_false (mouseRadius config) 0) by lra. simpl.
    assert (Hq : (0 <= d / mouseRadius config < 1)%R).
    { split.
      - apply Rmult_le_pos; [exact Hd0 |].
        apply Rlt_le, Rinv_0_lt_compat. lra.
      - apply (Rmult_lt_reg_r (mouseRadius config)); [lra |].
        replace (d / mouseRadius config * mouseRadius config)%R with d
          by (field; lra).
        lra. }
    split; [| lra].
    rewrite max_Fin, Rmax_right by lra. reflexivity.
Qed.

Lemma pointer_line_witness :
  mouseLine shipped (shippedColors light)
    (Mouse.mk (Some (Fin 30)) (Some (Fin 140))) nearOrigin
  = [strokeLine (Fin 30) (Fin 40) (Fin 30) (Fin 140) "44, 62, 80"
       (Fin ((1 - R_sqrt.sqrt ((30 - 30) * (30 - 30)
                               + (40 - 140) * (40 - 140)) / 200) * 0.5))
       (Fin 0.8)].
Proof.
  apply (pointer_line shipped (shippedColors light)
           (Mouse.mk (Some (Fin 30)) (Some (Fin 140))) nearOrigin
           30 40 30 140); try reflexivity.
  replace ((30 - 30) * (30 - 30) + (40 - 140) * (40 - 140))%R
    with (100 * 100)%R by lra.
  rewrite sqrt_square by lra. simpl. lra.
Defined.

(** Property X15.  Unless the button is held with a present pointer
    closer than [mouseRepelRadius], [update()] is the [update()] of
    [particles.js]: movement and the boundary check, nothing else. *)
Theorem update_without_push (config : Config) (W H : R) (m : Mouse.t)
    (down : bool) (p : Particle.t) :
  down = false \/ absent m
  \/ (exists a b mx my : R,
        Particle.x p = Fin a /\ Particle.y p = Fin b
        /\ Mouse.x m = Some (Fin mx) /\ Mouse.y m = Some (Fin my)
        /\ (mouseRepelRadius config
            <= R_sqrt.sqrt ((a - mx) * (a - mx) + (b - my) * (b - my)))%R) ->
  update config W H m down p = Plain.update W H p.
Proof.
  intros Hcase. unfold update, Plain.update. do 3 f_equal.
  destruct Hcase as [-> | [Habs | (a & b & mx & my & Hx & Hy & Hmx & Hmy & Hfar)]].
  - apply repel_released.
  - apply repel_absent, Habs.
  - unfold repel. rewrite Hmx, Hmy, Hx, Hy.
    destruct down; [| reflexivity]. simpl.
    fold (a - mx)%R (b - my)%R.
    rewrite (Rltb_false ((a - mx) * (a - mx) + (b - my) * (b - my)) 0)
      by apply squares_nonneg.
    simpl. rewrite Rltb_false by lra. reflexivity.
Qed.

Lemma update_without_push_witness :
  update shipped 800 600 (Mouse.mk (Some (Fin 230)) (Some (Fin 40))) true
    nearOrigin
  = Plain.update 800 600 nearOrigin.
Proof.
  apply update_without_push. right. right.
  exists 30%R, 40%R, 230%R, 40%R. repeat split.
  replace ((30 - 230) * (30 - 230) + (40 - 40) * (40 - 40))%R
    with (200 * 200)%R by lra.
  rewrite sqrt_square by lra. simpl. lra.
Defined.

(** Property X16.  For an event inside the displayed rectangle of the
    canvas, [updateMousePosition] records a position on the surface: the
    offset into the rectangle, scaled by surface size over displayed size,
    which lies between 0 and the surface's width and height. *)
Theorem pointer_scaling (event : MouseEvent) (s : State) :
  (0 < rect_width event)%R -> (0 < rect_height event)%R ->
  (0 <= canvas_width s)%R -> (0 <= canvas_height s)%R ->
  (rect_left event <= clientX event <= rect_left event + rect_width event)%R ->
  (rect_top event <= clientY event <= rect_top event + rect_height event)%R ->
  exists mx my : R,
    mouse (updateMousePosition event s)
    = Mouse.mk (Some (Fin mx)) (Some (Fin my))
    /\ (mx * rect_width event
        = (clientX event - rect_left event) * canvas_width s)%R
    /\ (my * rect_height event
        = (clientY event - rect_top event) * canvas_height s)%R
    /\ (0 <= mx <= canvas_width s)%R /\ (0 <= my <= canvas_height s)%R.
Proof.
  intros Hw Hh HW HH Hx Hy.
  exists ((clientX event - rect_left event)
          * (canvas_width s / rect_width event))%R,
         ((clientY event - rect_top event)
          * (canvas_height s / rect_height event))%R.
  assert (Hscale : forall c l w W : R,
            (0 < w)%R -> (0 <= W)%R -> (l <= c <= l + w)%R ->
            ((c - l) * (W / w) * w = (c - l) * W)%R
            /\ (0 <= (c - l) * (W / w) <= W)%R).
  { intros c l w W H0 H1 H2.
    assert (Hq : (0 <= W / w)%R).
    { apply Rmult_le_pos; [exact H1 |].
      apply Rlt_le, Rinv_0_lt_compat, H0. }
    assert (He : ((c - l) * (W / w) * w = (c - l) * W)%R) by (field; lra).
    split; [exact He |]. split.
    - apply Rmult_le_pos; lra.
    - replace W with (w * (W / w))%R at 2 by (field; lra).
      apply Rmult_le_compat_r; lra. }
  destruct (Hscale (clientX event) (rect_left event) (rect_width event)
              (canvas_width s) Hw HW Hx) as [Hex Hrx].
  destruct (Hscale (clientY event) (rect_top event) (rect_height event)
              (canvas_height s) Hh HH Hy) as [Hey Hry].
  repeat split; try lra.
  unfold updateMousePosition. cbn [mouse set_mouse].
  cbn [JS.sub JS.add JS.neg JS.div JS.mul].
  rewrite (Reqb_false (rect_width event) 0) by lra.
  rewrite (Reqb_false (rect_height event) 0) by lra.
  reflexivity.
Qed.

Lemma pointer_scaling_witness :
  exists mx my : R,
    mouse (updateMousePosition (mkMouseEvent 210 160 10 10 400 300) blank)
    = Mouse.mk (Some (Fin mx)) (Some (Fin my))
    /\ (0 <= mx <= 800)%R /\ (0 <= my <= 600)%R.
Proof.
  destruct (pointer_scaling (mkMouseEvent 210 160 10 10 400 300) blank)
    as (mx & my & Hm & _ & _ & Hx & Hy); try (simpl; lra).
  exists mx, my. split; [exact Hm |]. split; assumption.
Defined.

(* ================================================================= *)
(** ** A pointer position that is not a finite number *)

Lemma sub_Fin_finite (x : R) (a : num) : finite (Fin x - a) = finite a.
Proof. destruct a; reflexivity. Qed.

Lemma sub_finite_Fin (x : R) (a : num) : finite (a - Fin x) = finite a.
Proof. destruct a; reflexivity. Qed.

Lemma inf_signed_nonfinite (r : R) (pos : num) :
  finite pos = false -> finite (JS.inf_signed r pos) = false.
Proof.
  intros H. unfold JS.inf_signed.
  destruct (JS.Rltb 0 r); [exact H |].
  destruct (JS.Rltb r 0); [| reflexivity].
  destruct pos; try reflexivity; discriminate.
Qed.

Lemma mul_Fin_nonfinite (d : R) (u : num) :
  finite u = false -> finite (Fin d * u) = false.
Proof.
  intros H. destruct u; try discriminate; simpl; try reflexivity;
    apply inf_signed_nonfinite; reflexivity.
Qed.

(** A distance with a difference that is not finite is below no number. *)
Lemma distance_nonfinite (u v : num) (c : R) :
  finite u && finite v = false ->
  (JS.sqrt (u * u + v * v) <? Fin c) = false.
Proof.
  destruct u as [| | r |], v as [| | r' |]; simpl; try reflexivity;
    try discriminate.
  all: intros _.
  all: repeat match goal with
       | |- context [JS.inf_signed ?a ?b] =>
           unfold JS.inf_signed;
           destruct (JS.Rltb 0 a); [| destruct (JS.Rltb a 0)]
       end; try reflexivity.
Qed.

Lemma hitTest_nonfinite (a b : num) (p : Particle.t) (x y r : R) :
  finite a && finite b = false ->
  Particle.x p = Fin x -> Particle.y p = Fin y -> Particle.radius p = Fin r ->
  hitTest a b p = false.
Proof.
  intros Hnf Hx Hy Hr. unfold hitTest. rewrite Hx, Hy, Hr. cbv zeta.
  change (Fin r + Fin 20) with (Fin (r + 20)).
  apply distance_nonfinite. rewrite !sub_finite_Fin. exact Hnf.
Qed.

(** Property X17.  A pointer position of which a coordinate is not a
    finite number acts on a particle as an absent pointer does, although it
    is not [null]: it pushes nothing, no line is drawn to it, and a press
    there is on no particle. *)
Theorem nonfinite_pointer_inert (config : Config) (colors : Palette)
    (W H : R) (m : Mouse.t) (down : bool) (p : Particle.t) (a b : num)
    (x y r : R) :
  Mouse.x m = Some a -> Mouse.y m = Some b ->
  finite a && finite b = false ->
  Particle.x p = Fin x -> Particle.y p = Fin y -> Particle.radius p = Fin r ->
  update config W H m down p = Plain.update W H p
  /\ mouseLine config colors m p = []
  /\ hitTest a b p = false.
Proof.
  intros Hmx Hmy Hnf Hx Hy Hr.
  assert (Hfar : forall c : R,
            (JS.sqrt ((Fin x - a) * (Fin x - a) + (Fin y - b) * (Fin y - b))
             <? Fin c) = false).
  { intros c. apply distance_nonfinite. rewrite !sub_Fin_finite. exact Hnf. }
  split; [| split].
  - unfold update, Plain.update. do 3 f_equal.
    unfold repel. rewrite Hmx, Hmy, Hx, Hy.
    destruct down; [| reflexivity]. cbv zeta. rewrite Hfar. reflexivity.
  - unfold mouseLine. rewrite Hmx, Hmy, Hx, Hy. cbv zeta.
    rewrite Hfar. reflexivity.
  - apply (hitTest_nonfinite a b p x y r); assumption.
Qed.

Lemma nonfinite_pointer_inert_witness :
  hitTest PInf (Fin 200) egg = false.
Proof.
  apply (nonfinite_pointer_inert shipped (shippedColors light) 800 600
           (Mouse.mk (Some PInf) (Some (Fin 200))) true egg
           PInf (Fin 200) 300 200 4); reflexivity.
Defined.

(** Property X18.  While the canvas is displayed with zero width or zero
    height, the position of a press is not a finite number, whatever the
    event's coordinates; the press then finds no special particle, and with
    waves on it pushes a wave centred on that position. *)
Theorem hidden_canvas_press (config : Config) (popupElement : bool)
    (event : MouseEvent) (s : State) :
  rect_width event = 0%R \/ rect_height event = 0%R ->
  (forall p, In p (particles s) ->
     exists x y r : R,
       Particle.x p = Fin x /\ Particle.y p = Fin y
       /\ Particle.radius p = Fin r) ->
  finite (pressX event s) && finite (pressY event s) = false
  /\ mousedown config popupElement event s
     = (let s1 := updateMousePosition event (set_isMouseDown true s) in
        if waveOnClick config
        then set_activeWaves
               (activeWaves s
                ++ [newWave config (pressX event s) (pressY event s)]) s1
        else s1).
Proof.
  intros Hzero Hfin.
  assert (Hnf : finite (pressX event s) && finite (pressY event s) = false).
  { assert (Hscale : forall W : R, finite (Fin W / Fin 0) = false).
    { intros W. cbn [JS.div]. rewrite Reqb_true by reflexivity.
      apply inf_signed_nonfinite. reflexivity. }
    destruct Hzero as [Hw | Hh].
    - apply andb_false_iff. left. unfold pressX. rewrite Hw.
      cbn [JS.sub JS.add JS.neg]. apply mul_Fin_nonfinite, Hscale.
    - apply andb_false_iff. right. unfold pressY. rewrite Hh.
      cbn [JS.sub JS.add JS.neg]. apply mul_Fin_nonfinite, Hscale. }
  split; [exact Hnf |].
  apply mousedown_off_egg. right. intros p Hin _.
  destruct (Hfin p Hin) as (x & y & r & Hx & Hy & Hr).
  apply (hitTest_nonfinite _ _ p x y r); assumption.
Qed.

Lemma hidden_canvas_press_witness :
  activeWaves (mousedown shipped true (mkMouseEvent 300 200 0 0 0 0) scene)
  = [newWave shipped (pressX (mkMouseEvent 300 200 0 0 0 0) scene)
       (pressY (mkMouseEvent 300 200 0 0 0 0) scene)].
Proof.
  destruct (hidden_canvas_press shipped true (mkMouseEvent 300 200 0 0 0 0)
              scene) as [_ Hpress].
  - left. reflexivity.
  - intros p [<- | [<- | []]].
    + exists 310%R, 200%R, 4%R. repeat split.
    + exists 300%R, 200%R, 4%R. repeat split.
  - rewrite Hpress. reflexivity.
Defined.

(* ================================================================= *)
(** ** More on connectParticles *)

Lemma pairLine_length (config : Config) (colors : Palette)
    (p q : Particle.t) :
  (List.length (pairLine config colors p q) <= 1)%nat.
Proof.
  unfold pairLine. destruct (_ <? _); simpl; lia.
Qed.

Lemma pairLines_from_length (config : Config) (colors : Palette)
    (p : Particle.t) (rest : list Particle.t) :
  (List.length (flat_map (pairLine config colors p) rest)
   <= List.length rest)%nat.
Proof.
  induction rest as [| q rest IH]; simpl; [lia |].
  rewrite length_app. pose proof (pairLine_length config colors p q). lia.
Qed.

Lemma mouseLine_length (config : Config) (colors : Palette) (m : Mouse.t)
    (p : Particle.t) :
  (List.length (mouseLine config colors m p) <= 1)%nat.
Proof.
  unfold mouseLine. destruct (Mouse.x m), (Mouse.y m); simpl; try lia.
  destruct (_ <? _); simpl; lia.
Qed.

(** Property X19.  [connectParticles] draws at most one line for each
    unordered pair of particles and at most one more for each particle, to
    the pointer: never more than [n (n - 1) / 2 + n] lines for [n]
    particles. *)
Theorem line_count (config : Config) (colors : Palette) (m : Mouse.t)
    (ps : list Particle.t) :
  (2 * List.length (pairLines config colors ps)
   <= List.length ps * (List.length ps - 1))%nat
  /\ (List.length (connectFrom config colors m ps)
      <= List.length (pairLines config colors ps) + List.length ps)%nat.
Proof.
  induction ps as [| p rest [IHp IHc]]; [simpl; lia |].
  pose proof (pairLines_from_length config colors p rest) as Hrow.
  pose proof (mouseLine_length config colors m p) as Hm.
  cbn [pairLines connectFrom List.length]. rewrite !length_app. split.
  - replace (S (List.length rest) - 1)%nat with (List.length rest) by lia.
    destruct (List.length rest) as [| k] eqn:Hlen.
    + simpl in *. lia.
    + replace (S k - 1)%nat with k in IHp by lia. nia.
  - lia.
Qed.

(* ================================================================= *)
(** ** A particle whose position is NaN *)

Lemma distance_NaN (u v c : num) :
  u = NaN \/ v = NaN -> (JS.sqrt (u * u + v * v) <? c) = false.
Proof.
  intros [-> | ->].
  - reflexivity.
  - rewrite mul_NaN_l, add_NaN_r. reflexivity.
Qed.

Lemma sub_NaN_r (a : num) : a - NaN = NaN.
Proof. apply add_NaN_r. Qed.

(** Property X20.  A particle with a NaN coordinate is out of reach: no
    line is drawn from it or to it, none to the pointer, and no press is
    on it, wherever the press is. *)
Theorem lost_particle_unreachable (config : Config) (colors : Palette)
    (m : Mouse.t) (mx my : num) (p q : Particle.t) :
  Particle.x p = NaN \/ Particle.y p = NaN ->
  pairLine config colors p q = []
  /\ pairLine config colors q p = []
  /\ mouseLine config colors m p = []
  /\ hitTest mx my p = false.
Proof.
  intros Hlost.
  assert (Hfrom : forall a b : num,
            Particle.x p - a = NaN \/ Particle.y p - b = NaN).
  { intros a b. destruct Hlost as [-> | ->]; [left | right]; reflexivity. }
  assert (Hto : forall a b : num,
            a - Particle.x p = NaN \/ b - Particle.y p = NaN).
  { intros a b. destruct Hlost as [-> | ->]; [left | right];
      apply sub_NaN_r. }
  repeat split.
  - unfold pairLine, pairDistance. cbv zeta.
    rewrite distance_NaN by apply Hfrom. reflexivity.
  - unfold pairLine, pairDistance. cbv zeta.
    rewrite distance_NaN by apply Hto. reflexivity.
  - unfold mouseLine. destruct (Mouse.x m) as [a |]; [| reflexivity].
    destruct (Mouse.y m) as [b |]; [| reflexivity]. cbv zeta.
    rewrite distance_NaN by apply Hfrom. reflexivity.
  - unfold hitTest. cbv zeta. apply distance_NaN, Hto.
Qed.

Lemma lost_particle_unreachable_witness :
  hitTest (Fin 300) (Fin 200) (Particle.mk (Fin 4) NaN NaN NaN NaN true)
  = false.
Proof.
  apply (lost_particle_unreachable shipped (shippedColors light)
           (Mouse.mk None None) (Fin 300) (Fin 200)
           (Particle.mk (Fin 4) NaN NaN NaN NaN true) egg).
  left. reflexivity.
Defined.

(* ================================================================= *)
(** ** The egg switched off *)

Lemma animate_signal (config : Config) (s : State) :
  popupCalls (animate config s) = popupCalls s
  /\ popupVisible (animate config s) = popupVisible s
  /\ easterEggParticleFound (animate config s) = easterEggParticleFound s.
Proof.
  unfold animate.
  destruct (if waveOnClick config then _ else _) as [waves d1].
  repeat split.
Qed.

Lemma startAnimation_signal (config : Config) (s : State) :
  popupCalls (startAnimation config s) = popupCalls s
  /\ popupVisible (startAnimation config s) = popupVisible s
  /\ easterEggParticleFound (startAnimation config s)
     = easterEggParticleFound s.
Proof.
  unfold startAnimation. destruct (negb (truthy (animationFrameId s))).
  - apply animate_signal.
  - repeat split.
Qed.

Lemma hideEasterEggPopup_signal (popupElement : bool) (s : State) :
  popupCalls (hideEasterEggPopup popupElement s) = popupCalls s
  /\ (popupVisible (hideEasterEggPopup popupElement s) = true ->
      popupVisible s = true)
  /\ easterEggParticleFound (hideEasterEggPopup popupElement s)
     = easterEggParticleFound s.
Proof.
  unfold hideEasterEggPopup.
  destruct popupElement, (truthy (popupTimeoutId s)); simpl;
    repeat split; auto; discriminate.
Qed.

(** Without the egg, the listener of [part_000] is the listener of
    [part_001]. *)
Lemma mousedown_egg_disabled (config : Config) (popupElement : bool)
    (event : MouseEvent) (s : State) :
  enableEasterEgg config = false ->
  mousedown config popupElement event s = WavesOnly.mousedown config event s.
Proof.
  intros Hoff. unfold mousedown, WavesOnly.mousedown. rewrite Hoff.
  cbv beta iota zeta. cbn [negb]. rewrite andb_true_r. reflexivity.
Qed.

Lemma handle_egg_disabled (config : Config) (random : nat -> R)
    (popupElement : bool) (e : Event) (s s' : State) :
  enableEasterEgg config = false ->
  handle config random popupElement e s = Some s' ->
  popupCalls s' = popupCalls s
  /\ (popupVisible s' = true -> popupVisible s = true)
  /\ (easterEggParticleFound s' = true -> easterEggParticleFound s = true).
Proof.
  intros Hoff He. destruct e; cbn [handle] in He.
  - destruct (truthy (animationFrameId s)); injection He as <-;
      [| repeat split; auto].
    destruct (animate_signal config s) as (-> & -> & ->). repeat split; auto.
  - injection He as <-. repeat split; auto.
  - injection He as <-. repeat split; auto.
  - injection He as <-. rewrite mousedown_egg_disabled by exact Hoff.
    unfold WavesOnly.mousedown. cbv zeta.
    cbn [updateMousePosition set_mouse mouse Mouse.x Mouse.y].
    destruct (waveOnClick config); repeat split; auto.
  - injection He as <-. repeat split; auto.
  - unfold handleResize in He.
    destruct (init_succeeds config random innerWidth innerHeight
                (stopAnimation s)) as (ps & draws & Hinit & _).
    rewrite Hinit in He. injection He as <-.
    destruct (startAnimation_signal config
                (initialised innerWidth innerHeight ps draws
                   (stopAnimation s))) as (-> & -> & ->).
    unfold initialised, stopAnimation.
    destruct (truthy (animationFrameId s)); cbn; repeat split; auto;
      discriminate.
  - injection He as <-. repeat split; auto.
  - destruct (existsb (Nat.eqb id) (pendingTimeouts s));
      injection He as <-; [| repeat split; auto].
    match goal with
    | |- context [hideEasterEggPopup popupElement ?s0] =>
        destruct (hideEasterEggPopup_signal popupElement s0)
          as (-> & Hv & ->)
    end.
    repeat split; auto.
  - injection He as <-.
    destruct (hideEasterEggPopup_signal popupElement s) as (-> & Hv & ->).
    repeat split; auto.
Qed.

(** Property X21.  With [enableEasterEgg] off the script is that of
    [part_001]: the mousedown listener is the one without the egg scan,
    and however the session goes [showEasterEggPopup] is never called, the
    popup is never shown and the found flag is never set. *)
Theorem egg_disabled (config : Config) (random : nat -> R)
    (popupElement : bool) (es : list Event) (s s' : State) :
  enableEasterEgg config = false ->
  run config random popupElement es s = Some s' ->
  (forall (event : MouseEvent) (s0 : State),
     mousedown config popupElement event s0
     = WavesOnly.mousedown config event s0)
  /\ popupCalls s' = popupCalls s
  /\ (popupVisible s = false -> popupVisible s' = false)
  /\ (easterEggParticleFound s = false -> easterEggParticleFound s' = false).
Proof.
  intros Hoff Hrun. split.
  { intros event s0. apply mousedown_egg_disabled, Hoff. }
  assert (Hinv : popupCalls s' = popupCalls s
                 /\ (popupVisible s' = true -> popupVisible s = true)
                 /\ (easterEggParticleFound s' = true ->
                     easterEggParticleFound s = true)).
  { revert s Hrun. induction es as [| e rest IH]; intros s Hrun;
      simpl in Hrun.
    - injection Hrun as <-. repeat split; auto.
    - destruct (handle config random popupElement e s) as [s1 |] eqn:He;
        [| discriminate].
      destruct (handle_egg_disabled _ _ _ _ _ _ Hoff He) as (H1 & H2 & H3).
      destruct (IH s1 Hrun) as (G1 & G2 & G3).
      repeat split; [congruence | auto | auto]. }
  destruct Hinv as (Hc & Hv & Hf). split; [exact Hc |]. split.
  - intros Hs. destruct (popupVisible s') eqn:E; [| reflexivity].
    rewrite Hv in Hs by reflexivity. discriminate.
  - intros Hs. destruct (easterEggParticleFound s') eqn:E; [| reflexivity].
    rewrite Hf in Hs by reflexivity. discriminate.
Qed.

Lemma egg_disabled_witness :
  popupCalls (mousedown eggless true (pressAt 300 200) scene) = 0%nat.
Proof.
  destruct (egg_disabled eggless (fun _ => 0.5%R) true
              [MousePressed (pressAt 300 200)] scene
              (mousedown eggless true (pressAt 300 200) scene))
    as (_ & Hc & _); [reflexivity | reflexivity | exact Hc].
Defined.

(* ================================================================= *)
(** ** The theme *)




(* ================================================================= *)
(** ** The listeners of the window *)

Lemma resize_settles (d : Debounce.t) :
  Debounce.settled d ->
  Debounce.pending (Debounce.resize d) = [S (Debounce.next d)]
  /\ Debounce.resizeTimeout (Debounce.resize d) = Some (S (Debounce.next d))
  /\ Debounce.calls (Debounce.resize d) = Debounce.calls d.
Proof.
  intros Hs. unfold Debounce.resize.
  cbn [Debounce.pending Debounce.resizeTimeout Debounce.calls].
  repeat split.
  destruct Hs as [Hp | (id & Hr & Hp)]; rewrite Hp.
  - destruct (Debounce.resizeTimeout d); reflexivity.
  - rewrite Hr, clearTimeout_self. reflexivity.
Qed.

Lemma step_settled (d : Debounce.t) (i : Debounce.Input) :
  Debounce.settled d ->
  Debounce.settled (Debounce.step d i)
  /\ (Debounce.calls (Debounce.step d i)
      + List.length (Debounce.pending (Debounce.step d i))
      <= Debounce.calls d + List.length (Debounce.pending d)
         + (if Debounce.isResize i then 1 else 0))%nat.
Proof.
  intros Hs. destruct i as [| id]; cbn [Debounce.step Debounce.isResize].
  - destruct (resize_settles d Hs) as (Hp & Hr & Hc). split.
    + right. exists (S (Debounce.next d)). split; assumption.
    + rewrite Hp, Hc. simpl. lia.
  - unfold Debounce.fire.
    destruct (existsb (Nat.eqb id) (Debounce.pending d)) eqn:E;
      [| split; [exact Hs | lia]].
    destruct Hs as [Hp | (id' & Hr & Hp)]; rewrite Hp in E; simpl in E;
      [discriminate |].
    rewrite orb_false_r in E. apply Nat.eqb_eq in E. subst id'.
    cbn [Debounce.pending Debounce.calls]. rewrite Hp, remove_self. split.
    + left. reflexivity.
    + simpl. lia.
Qed.

(** Property X23.  Resizes are debounced: whatever resize events and
    timers came before, no two calls of [handleResize] are ever pending
    together; a resize event cancels the pending call and leaves exactly
    one, its own; and [handleResize] is called at most once for each resize
    event. *)
Theorem resize_debounced (inputs : list Debounce.Input) (d : Debounce.t) :
  Debounce.settled d ->
  let d' := Debounce.run inputs d in
  Debounce.settled d'
  /\ (List.length (Debounce.pending d') <= 1)%nat
  /\ Debounce.pending (Debounce.resize d') = [S (Debounce.next d')]
  /\ (Debounce.calls d' + List.length (Debounce.pending d')
      <= Debounce.calls d + List.length (Debounce.pending d)
         + List.length (filter Debounce.isResize inputs))%nat.
Proof.
  intros Hs. cbv zeta.
  assert (Hinv : Debounce.settled (Debounce.run inputs d)
                 /\ (Debounce.calls (Debounce.run inputs d)
                     + List.length (Debounce.pending (Debounce.run inputs d))
                     <= Debounce.calls d + List.length (Debounce.pending d)
                        + List.length (filter Debounce.isResize inputs))%nat).
  { revert d Hs. unfold Debounce.run.
    induction inputs as [| i rest IH]; intros d Hs; simpl.
    - split; [exact Hs | lia].
    - destruct (step_settled d i Hs) as [Hs1 Hc1].
      destruct (IH (Debounce.step d i) Hs1) as [Hs2 Hc2].
      split; [exact Hs2 |].
      destruct (Debounce.isResize i); simpl; lia. }
  destruct Hinv as [Hs' Hc]. split; [exact Hs' |]. split; [| split].
  - destruct Hs' as [-> | (id & _ & ->)]; simpl; lia.
  - apply resize_settles, Hs'.
  - exact Hc.
Qed.

Lemma resize_debounced_witness :
  Debounce.pending
    (Debounce.resize
       (Debounce.run [Debounce.Resize; Debounce.Resize; Debounce.Resize]
          (Debounce.mk None [] 0 0)))
  = [4%nat].
Proof.
  destruct (resize_debounced
              [Debounce.Resize; Debounce.Resize; Debounce.Resize]
              (Debounce.mk None [] 0 0)) as (_ & _ & Hp & _).
  - left. reflexivity.
  - exact Hp.
Defined.

(** Property X24.  For a canvas displayed unscaled in the corner of the
    window, the mousemove listener of [part_000] records what the one of
    [particles.js] records: the client coordinates. *)
Theorem pointer_unscaled (event : MouseEvent) (s : State) :
  rect_left event = 0%R -> rect_top event = 0%R ->
  rect_width event = canvas_width s -> rect_height event = canvas_height s ->
  (0 < canvas_width s)%R -> (0 < canvas_height s)%R ->
  mousemove event s = Plain.mousemove event s.
Proof.
  intros Hl Ht Hw Hh HW HH.
  unfold mousemove, Plain.mousemove, updateMousePosition.
  rewrite Hl, Ht, Hw, Hh. cbn [JS.sub JS.add JS.neg JS.div JS.mul].
  rewrite (Reqb_false (canvas_width s) 0) by lra.
  rewrite (Reqb_false (canvas_height s) 0) by lra.
  cbn [JS.mul]. do 2 f_equal; do 2 f_equal; field; lra.
Qed.

Lemma pointer_unscaled_witness :
  mousemove (pressAt 300 200) blank = Plain.mousemove (pressAt 300 200) blank.
Proof.
  apply pointer_unscaled; try reflexivity; simpl; lra.
Defined.
